(** * Audible metadata plugin for calibre: the query builder, the detail
    parser and the cover download, embedded from [src/__init__.py] and
    [src/worker.py].

    Python values are modelled by the values [json.loads] can return,
    exceptions by a result type, and the mutable objects the code writes
    to (the worker, the log, the result queue, the plugin's caches) by
    explicit state passing.  The builtins follow Python 3; the four that
    read text character by character ([str.lower], [str.capitalize],
    [float] of a [str] and [strptime]) are parameters of the code, see
    [Builtins].  The objects of the host (the metadata record, the log,
    the caches, the result queue) take what they are given and do not
    raise. *)

From Stdlib Require Import ZArith String Ascii List Bool Lia.
From Stdlib Require Import Floats.SpecFloat.
From stdpp Require Import gmap strings list.
From Stdlib Require DecimalString DecimalPos DecimalN.

Set Warnings "-register-all".
Local Open Scope string_scope.
Local Open Scope Z_scope.
Local Open Scope list_scope.

(** ** Python values and the builtins the plugin calls *)

Module Py.

(** The exceptions the modelled code can raise.  Every handler in the
    source is a bare [except:], so the kind only matters for reading. *)
Inductive exn : Set :=
| KeyError | TypeError | ValueError | IndexError
| AttributeError | UnboundLocalError | OverflowError.

Inductive result (A : Type) : Type :=
| Ok (a : A)
| Raise (e : exn).
Arguments Ok {A} a.
Arguments Raise {A} e.

#[export] Instance result_ret : MRet result := fun A a => Ok a.
#[export] Instance result_bind : MBind result := fun A B k r =>
  match r with
  | Ok a => k a
  | Raise e => Raise e
  end.

#[export] Instance result_fmap : FMap result := fun A B f r =>
  match r with
  | Ok a => Ok (f a)
  | Raise e => Raise e
  end.

(** A Python [float] is an IEEE binary64 number. *)
Definition float : Set := spec_float.
Definition prec : Z := 53.
Definition emax : Z := 1024.

(** What [json.loads] returns: [None], [bool], [int], [float], [str],
    [list], [dict].  A [dict] is kept as its items in insertion order;
    its keys are pairwise distinct. *)
Inductive json : Set :=
| JNull
| JBool (b : bool)
| JInt (z : Z)
| JFloat (f : float)
| JStr (s : string)
| JArr (l : list json)
| JObj (items : list (string * json)).

(** [bool(v)], the test behind [if v:] and [not v]. *)
Definition truthy (v : json) : bool :=
  match v with
  | JNull => false
  | JBool b => b
  | JInt z => negb (z =? 0)
  | JFloat (S754_zero _) => false
  | JFloat _ => true
  | JStr s => negb (String.eqb s "")
  | JArr l => match l with [] => false | _ => true end
  | JObj items => match items with [] => false | _ => true end
  end.

(** [v is None] *)
Definition is_None (v : json) : bool :=
  match v with JNull => true | _ => false end.

Fixpoint dict_get (items : list (string * json)) (k : string) : option json :=
  match items with
  | [] => None
  | (k', v) :: rest => if String.eqb k' k then Some v else dict_get rest k
  end.

(** [v[k]] for a string key [k]: only a [dict] can be subscripted by a
    string. *)
Definition getitem (v : json) (k : string) : result json :=
  match v with
  | JObj items =>
      match dict_get items k with
      | Some x => Ok x
      | None => Raise KeyError
      end
  | _ => Raise TypeError
  end.

Fixpoint chars (s : string) : list string :=
  match s with
  | EmptyString => []
  | String c rest => String c EmptyString :: chars rest
  end.

(** The values a [for x in v] loop visits. *)
Definition iter (v : json) : result (list json) :=
  match v with
  | JArr l => Ok l
  | JStr s => Ok (JStr <$> chars s)
  | JObj items => Ok ((fun kv => JStr (fst kv)) <$> items)
  | _ => Raise TypeError
  end.

(** A loop body that may raise, run over a list from left to right. *)
Fixpoint for_each {A B} (f : A -> result B) (l : list A) : result (list B) :=
  match l with
  | [] => Ok []
  | x :: rest =>
      match f x with
      | Raise e => Raise e
      | Ok y =>
          match for_each f rest with
          | Raise e => Raise e
          | Ok ys => Ok (y :: ys)
          end
      end
  end.

(** *** [str] methods

    A [str] is kept as its UTF-8 bytes.  [lower] and [capitalize] are
    [str.lower] and [str.capitalize] on a [str] of ASCII characters; they
    are used to run the code on such text. *)

Definition is_upper (c : ascii) : bool :=
  let n := nat_of_ascii c in (65 <=? n)%nat && (n <=? 90)%nat.
Definition is_lower (c : ascii) : bool :=
  let n := nat_of_ascii c in (97 <=? n)%nat && (n <=? 122)%nat.
Definition lower_char (c : ascii) : ascii :=
  if is_upper c then ascii_of_nat (nat_of_ascii c + 32) else c.
Definition upper_char (c : ascii) : ascii :=
  if is_lower c then ascii_of_nat (nat_of_ascii c - 32) else c.

(** [s.lower()], [s] of ASCII characters *)
Fixpoint lower (s : string) : string :=
  match s with
  | EmptyString => EmptyString
  | String c rest => String (lower_char c) (lower rest)
  end.

(** [s.capitalize()], [s] of ASCII characters *)
Definition capitalize (s : string) : string :=
  match s with
  | EmptyString => EmptyString
  | String c rest => String (upper_char c) (lower rest)
  end.

(** [s.split(' ')]: cut at every single space; never empty. *)
Fixpoint split_space (s : string) : list string :=
  match s with
  | EmptyString => [EmptyString]
  | String c rest =>
      if Ascii.eqb c " " then EmptyString :: split_space rest
      else match split_space rest with
           | [] => [String c EmptyString]
           | piece :: pieces => String c piece :: pieces
           end
  end.

(** [sep.join(l)] for a list [l]: every element has to be a [str]. *)
Fixpoint join_list (sep : string) (l : list json) : result string :=
  match l with
  | [] => Ok ""
  | [JStr s] => Ok s
  | JStr s :: rest =>
      match join_list sep rest with
      | Ok t => Ok (s +:+ sep +:+ t)
      | Raise e => Raise e
      end
  | _ :: _ => Raise TypeError
  end.

(** [sep.join(v)]: [v] is iterated like in a [for] loop. *)
Definition join (sep : string) (v : json) : result string :=
  l ← iter v; join_list sep l.

(** [a + v] for a [str] [a]. *)
Definition str_add (a : string) (v : json) : result string :=
  match v with
  | JStr s => Ok (a +:+ s)
  | _ => Raise TypeError
  end.

(** [v.split(' ')] exists on [str] only. *)
Definition method_split_space (v : json) : result (list string) :=
  match v with
  | JStr s => Ok (split_space s)
  | _ => Raise AttributeError
  end.

(** [l[i]] on a list of pieces. *)
Definition list_getitem {A} (l : list A) (i : nat) : result A :=
  match l !! i with
  | Some x => Ok x
  | None => Raise IndexError
  end.

(** *** [float(s)] for a [str] of ASCII characters

    [float_of_string] follows CPython on a [str] of ASCII characters:
    underscores between digits are dropped, white space is stripped at
    both ends, and what is left has to be a signed decimal literal, [inf],
    [infinity] or [nan]; the decimal value is rounded to the nearest
    binary64 number, ties to even, and an overflow gives an infinity. *)

Definition is_space (c : ascii) : bool :=
  let n := nat_of_ascii c in (n =? 32)%nat || ((9 <=? n)%nat && (n <=? 13)%nat).
Definition is_digit (c : ascii) : bool :=
  let n := nat_of_ascii c in (48 <=? n)%nat && (n <=? 57)%nat.
Definition digit_value (c : ascii) : Z := Z.of_nat (nat_of_ascii c) - 48.

Fixpoint remove_underscores (prev : ascii) (l : list ascii) : option (list ascii) :=
  match l with
  | [] => if Ascii.eqb prev "_" then None else Some []
  | c :: rest =>
      if Ascii.eqb c "_" then
        if is_digit prev then remove_underscores c rest else None
      else if Ascii.eqb prev "_" && negb (is_digit c) then None
      else cons c <$> remove_underscores c rest
  end.

Fixpoint lstrip (l : list ascii) : list ascii :=
  match l with
  | c :: rest => if is_space c then lstrip rest else l
  | [] => []
  end.
Definition strip (l : list ascii) : list ascii :=
  rev (lstrip (rev (lstrip l))).

Fixpoint span_digits (l : list ascii) : list ascii * list ascii :=
  match l with
  | c :: rest =>
      if is_digit c then let '(ds, tl) := span_digits rest in (c :: ds, tl)
      else ([], l)
  | [] => ([], [])
  end.

Definition digits_value (ds : list ascii) : Z :=
  fold_left (fun acc c => 10 * acc + digit_value c) ds 0.

(** The binary64 number nearest to [(-1)^neg * m * 10^e10]. *)
Definition float_of_decimal (neg : bool) (m e10 : Z) : float :=
  if m =? 0 then S754_zero neg
  else if 0 <=? e10 then
    binary_normalize prec emax ((if neg then - m else m) * 10 ^ e10) 0 false
  else
    SFdiv prec emax (S754_finite neg (Z.to_pos m) 0)
                    (S754_finite false (Z.to_pos (10 ^ (- e10))) 0).

Definition float_of_Z (z : Z) : float := binary_normalize prec emax z 0 false.

Definition take_sign (l : list ascii) : bool * list ascii :=
  match l with
  | c :: rest =>
      if Ascii.eqb c "-" then (true, rest)
      else if Ascii.eqb c "+" then (false, rest)
      else (false, l)
  | [] => (false, [])
  end.

(** The exponent part: empty, or [e]/[E], an optional sign and digits. *)
Definition parse_exponent (l : list ascii) : option Z :=
  match l with
  | [] => Some 0
  | c :: rest =>
      if Ascii.eqb (lower_char c) "e" then
        let '(neg, rest) := take_sign rest in
        match span_digits rest with
        | ((_ :: _) as ds, []) => Some (if neg then - digits_value ds else digits_value ds)
        | _ => None
        end
      else None
  end.

Definition parse_decimal (neg : bool) (l : list ascii) : option float :=
  let '(ip, rest) := span_digits l in
  let '(fp, rest) :=
    match rest with
    | c :: rest' => if Ascii.eqb c "." then span_digits rest' else ([], rest)
    | [] => ([], [])
    end in
  match ip ++ fp with
  | [] => None
  | ds =>
      e ← parse_exponent rest;
      Some (float_of_decimal neg (digits_value ds) (e - Z.of_nat (List.length fp)))
  end.

Definition parse_inf_or_nan (neg : bool) (l : list ascii) : option float :=
  let word := lower (string_of_list_ascii l) in
  if String.eqb word "inf" || String.eqb word "infinity" then Some (S754_infinity neg)
  else if String.eqb word "nan" then Some S754_nan
  else None.

Definition float_of_string (s : string) : option float :=
  l ← remove_underscores zero (list_ascii_of_string s);
  let '(neg, body) := take_sign (strip l) in
  match parse_decimal neg body with
  | Some f => Some f
  | None => parse_inf_or_nan neg body
  end.

End Py.

(** ** [datetime] *)

Module Datetime.
Import Py.

Record datetime : Set := mk_datetime {
  year : Z; month : Z; day : Z; hour : Z; minute : Z; second : Z
}.

Definition is_leap (y : Z) : bool :=
  ((y mod 4 =? 0) && negb (y mod 100 =? 0)) || (y mod 400 =? 0).

Definition days_in_month (y m : Z) : Z :=
  if m =? 2 then (if is_leap y then 29 else 28)
  else if (m =? 4) || (m =? 6) || (m =? 9) || (m =? 11) then 30
  else 31.

(** [datetime.datetime(y, m, d, H, M, S)] *)
Definition new (y m d hr mn sc : Z) : result datetime :=
  if (1 <=? y) && (y <=? 9999) && (1 <=? m) && (m <=? 12)
     && (1 <=? d) && (d <=? days_in_month y m)
     && (0 <=? hr) && (hr <=? 23) && (0 <=? mn) && (mn <=? 59)
     && (0 <=? sc) && (sc <=? 59)
  then Ok (mk_datetime y m d hr mn sc)
  else Raise ValueError.

(** The text before the first character satisfying [stop], and the text
    after that character. *)
Fixpoint take_until (stop : ascii -> bool) (l : list ascii)
  : option (list ascii * list ascii) :=
  match l with
  | [] => None
  | c :: rest =>
      if stop c then Some ([], rest)
      else '(field, tl) ← take_until stop rest; Some (c :: field, tl)
  end.

Definition is_char (x : ascii) (c : ascii) : bool := Ascii.eqb (lower_char c) x.

(** A run of [lo] to [hi] digits whose value lies in [vmin..vmax]: the
    texts matched by the numeric directives [%m], [%H], [%M], [%S], [%f]. *)
Definition number_field (lo hi : nat) (vmin vmax : Z) (field : list ascii) : option Z :=
  let n := List.length field in
  let v := digits_value field in
  if forallb is_digit field && (lo <=? n)%nat && (n <=? hi)%nat
     && (vmin <=? v) && (v <=? vmax)
  then Some v else None.

(** [%d] also takes a space followed by one digit. *)
Definition day_field (field : list ascii) : option Z :=
  match field with
  | [sp; d] =>
      if Ascii.eqb sp " " then number_field 1 1 1 9 [d]
      else number_field 1 2 1 31 field
  | _ => number_field 1 2 1 31 field
  end.

(** [datetime.datetime.strptime(s, '%Y-%m-%dT%H:%M:%S.%fZ')] for a [str]
    of ASCII characters ([None] is its [ValueError]): the whole of [s] has
    to match the format (letters of the format match in either case), and
    the fields have to name an existing date and time. *)
Definition strptime (s : string) : option datetime :=
  '(yyyy, rest) ← take_until (is_char "-") (list_ascii_of_string s);
  y ← number_field 4 4 0 9999 yyyy;
  '(mo, rest) ← take_until (is_char "-") rest;
  m ← number_field 1 2 1 12 mo;
  '(dd, rest) ← take_until (is_char "t") rest;
  d ← day_field dd;
  '(HH, rest) ← take_until (is_char ":") rest;
  hr ← number_field 1 2 0 23 HH;
  '(MM, rest) ← take_until (is_char ":") rest;
  mn ← number_field 1 2 0 59 MM;
  '(SS, rest) ← take_until (is_char ".") rest;
  sc ← number_field 1 2 0 61 SS;
  '(ff, rest) ← take_until (is_char "z") rest;
  _ ← number_field 1 6 0 999999 ff;
  match rest with
  | [] =>
      match new y m d hr mn sc with
      | Ok dt => Some dt
      | Raise _ => None
      end
  | _ => None
  end.

End Datetime.

(** ** The builtins that read text *)

Module Builtin.
Import Py.

(** [str.lower], [str.capitalize], [float] of a [str] and
    [datetime.datetime.strptime] of a [str] with the format of the plugin
    ([None] is the [ValueError] of the last two).  What they return
    depends on the Unicode tables of the interpreter, so the code is
    embedded over any four such functions. *)
Class Builtins : Type := {
  str_lower : string -> string;
  str_capitalize : string -> string;
  str_float : string -> option float;
  str_strptime : string -> option Datetime.datetime
}.

(** [v.capitalize()] and [v.lower()] exist on [str] only. *)
Definition method_capitalize `{Builtins} (v : json) : result string :=
  match v with
  | JStr s => Ok (str_capitalize s)
  | _ => Raise AttributeError
  end.

Definition method_lower `{Builtins} (v : json) : result string :=
  match v with
  | JStr s => Ok (str_lower s)
  | _ => Raise AttributeError
  end.

(** [float(v)] *)
Definition to_float `{Builtins} (v : json) : result float :=
  match v with
  | JStr s =>
      match str_float s with
      | Some f => Ok f
      | None => Raise ValueError
      end
  | JInt z =>
      match float_of_Z z with
      | S754_infinity _ => Raise OverflowError
      | f => Ok f
      end
  | JBool b => Ok (float_of_Z (if b then 1 else 0))
  | JFloat f => Ok f
  | JNull | JArr _ | JObj _ => Raise TypeError
  end.

(** [datetime.datetime.strptime(v, '%Y-%m-%dT%H:%M:%S.%fZ')] *)
Definition strptime `{Builtins} (v : json) : result Datetime.datetime :=
  match v with
  | JStr s =>
      match str_strptime s with
      | Some dt => Ok dt
      | None => Raise ValueError
      end
  | _ => Raise TypeError
  end.

(** The builtins on text of ASCII characters. *)
Definition ascii_text : Builtins := {|
  str_lower := lower;
  str_capitalize := capitalize;
  str_float := float_of_string;
  str_strptime := Datetime.strptime
|}.

End Builtin.

(** ** The host's objects: metadata record, log, caches *)

Module Host.
Import Py.

(** [calibre.ebooks.metadata.book.base.Metadata], restricted to the
    attributes the plugin writes.  [None] is an attribute the plugin left
    at the host's default. *)
Record Metadata : Set := mk_Metadata {
  mi_title : json;
  mi_authors : json;
  mi_identifiers : list (string * json);
  mi_series : option json;
  mi_series_index : option float;
  mi_rating : option float;
  mi_has_cover : option bool;
  mi_tags : option (list string);
  mi_publisher : option json;
  mi_pubdate : option Datetime.datetime;
  mi_language : option string;
  mi_comments : option string;
  mi_source_relevance : option nat
}.

(** [Metadata(title, authors)] followed by [set_identifier(typ, val)]. *)
Definition new_Metadata (title authors : json) : Metadata :=
  mk_Metadata title authors [] None None None None None None None None None None.

Definition set_identifier (mi : Metadata) (typ : string) (val : json) : Metadata :=
  mk_Metadata (mi_title mi) (mi_authors mi) ((typ, val) :: mi_identifiers mi)
    (mi_series mi) (mi_series_index mi) (mi_rating mi) (mi_has_cover mi)
    (mi_tags mi) (mi_publisher mi) (mi_pubdate mi) (mi_language mi)
    (mi_comments mi) (mi_source_relevance mi).

Definition set_series (mi : Metadata) (series : json) (series_index : float) : Metadata :=
  mk_Metadata (mi_title mi) (mi_authors mi) (mi_identifiers mi)
    (Some series) (Some series_index) (mi_rating mi) (mi_has_cover mi)
    (mi_tags mi) (mi_publisher mi) (mi_pubdate mi) (mi_language mi)
    (mi_comments mi) (mi_source_relevance mi).

Definition set_rating (mi : Metadata) (rating : float) : Metadata :=
  mk_Metadata (mi_title mi) (mi_authors mi) (mi_identifiers mi)
    (mi_series mi) (mi_series_index mi) (Some rating) (mi_has_cover mi)
    (mi_tags mi) (mi_publisher mi) (mi_pubdate mi) (mi_language mi)
    (mi_comments mi) (mi_source_relevance mi).

Definition set_has_cover (mi : Metadata) (b : bool) : Metadata :=
  mk_Metadata (mi_title mi) (mi_authors mi) (mi_identifiers mi)
    (mi_series mi) (mi_series_index mi) (mi_rating mi) (Some b)
    (mi_tags mi) (mi_publisher mi) (mi_pubdate mi) (mi_language mi)
    (mi_comments mi) (mi_source_relevance mi).

Definition set_tags (mi : Metadata) (tags : list string) : Metadata :=
  mk_Metadata (mi_title mi) (mi_authors mi) (mi_identifiers mi)
    (mi_series mi) (mi_series_index mi) (mi_rating mi) (mi_has_cover mi)
    (Some tags) (mi_publisher mi) (mi_pubdate mi) (mi_language mi)
    (mi_comments mi) (mi_source_relevance mi).

Definition set_publisher (mi : Metadata) (publisher : json) : Metadata :=
  mk_Metadata (mi_title mi) (mi_authors mi) (mi_identifiers mi)
    (mi_series mi) (mi_series_index mi) (mi_rating mi) (mi_has_cover mi)
    (mi_tags mi) (Some publisher) (mi_pubdate mi) (mi_language mi)
    (mi_comments mi) (mi_source_relevance mi).

Definition set_pubdate (mi : Metadata) (pubdate : Datetime.datetime) : Metadata :=
  mk_Metadata (mi_title mi) (mi_authors mi) (mi_identifiers mi)
    (mi_series mi) (mi_series_index mi) (mi_rating mi) (mi_has_cover mi)
    (mi_tags mi) (mi_publisher mi) (Some pubdate) (mi_language mi)
    (mi_comments mi) (mi_source_relevance mi).

Definition set_language (mi : Metadata) (language : string) : Metadata :=
  mk_Metadata (mi_title mi) (mi_authors mi) (mi_identifiers mi)
    (mi_series mi) (mi_series_index mi) (mi_rating mi) (mi_has_cover mi)
    (mi_tags mi) (mi_publisher mi) (mi_pubdate mi) (Some language)
    (mi_comments mi) (mi_source_relevance mi).

Definition set_comments (mi : Metadata) (comments : string) : Metadata :=
  mk_Metadata (mi_title mi) (mi_authors mi) (mi_identifiers mi)
    (mi_series mi) (mi_series_index mi) (mi_rating mi) (mi_has_cover mi)
    (mi_tags mi) (mi_publisher mi) (mi_pubdate mi) (mi_language mi)
    (Some comments) (mi_source_relevance mi).

Definition set_source_relevance (mi : Metadata) (relevance : nat) : Metadata :=
  mk_Metadata (mi_title mi) (mi_authors mi) (mi_identifiers mi)
    (mi_series mi) (mi_series_index mi) (mi_rating mi) (mi_has_cover mi)
    (mi_tags mi) (mi_publisher mi) (mi_pubdate mi) (mi_language mi)
    (mi_comments mi) (Some relevance).

(** The log keeps the calls made on it: the method and the message
    (the format string, without the url it is filled with). *)
Inductive level : Set := Info | Error | Exception.
Definition log_record : Set := (level * string)%type.

(** The plugin's caches ([Source.cache_identifier_to_cover_url],
    [Source.cache_isbn_to_identifier]): the associations handed to the
    host, the newest first. *)
Record Plugin : Set := mk_Plugin {
  identifier_to_cover_url_cache : list (json * json);
  isbn_to_identifier_cache : list (json * json)
}.

Definition cache_identifier_to_cover_url (p : Plugin) (id url : json) : Plugin :=
  mk_Plugin ((id, url) :: identifier_to_cover_url_cache p) (isbn_to_identifier_cache p).

Definition cache_isbn_to_identifier (p : Plugin) (isbn id : json) : Plugin :=
  mk_Plugin (identifier_to_cover_url_cache p) ((isbn, id) :: isbn_to_identifier_cache p).

(** [Source.cached_identifier_to_cover_url(id)] for a [str] key: a [str]
    is equal to no key of another type. *)
Fixpoint cached_lookup (cache : list (json * json)) (id : string) : option json :=
  match cache with
  | [] => None
  | (JStr k, url) :: rest => if String.eqb k id then Some url else cached_lookup rest id
  | _ :: rest => cached_lookup rest id
  end.

Definition cached_identifier_to_cover_url (p : Plugin) (id : string) : option json :=
  cached_lookup (identifier_to_cover_url_cache p) id.

End Host.

(** ** [src/worker.py]: class [Worker] *)

Module Worker.
Import Py Builtin Host.

(** The attributes of a [Worker] that [parse_details] reads or writes,
    with the objects it shares with its caller: the result queue, the log
    and the plugin. *)
Record Worker : Set := mk_Worker {
  self_url : string;
  self_result_queue : list Metadata;
  self_log : list log_record;
  self_relevance : nat;
  self_plugin : Plugin;
  self_cover_url : json;
  self_audible_id : json;
  self_isbn : json
}.

(** [Worker.__init__]: [cover_url], [audible_id] and [isbn] start as [None]. *)
Definition __init__ (url : string) (result_queue : list Metadata)
    (log : list log_record) (relevance : nat) (plugin : Plugin) : Worker :=
  mk_Worker url result_queue log relevance plugin JNull JNull JNull.

Definition log_call (lvl : level) (self : Worker) (msg : string) : Worker :=
  mk_Worker (self_url self) (self_result_queue self) (self_log self ++ [(lvl, msg)])
    (self_relevance self) (self_plugin self) (self_cover_url self)
    (self_audible_id self) (self_isbn self).

Definition set_cover_url (self : Worker) (v : json) : Worker :=
  mk_Worker (self_url self) (self_result_queue self) (self_log self)
    (self_relevance self) (self_plugin self) v (self_audible_id self) (self_isbn self).

Definition set_audible_id (self : Worker) (v : json) : Worker :=
  mk_Worker (self_url self) (self_result_queue self) (self_log self)
    (self_relevance self) (self_plugin self) (self_cover_url self) v (self_isbn self).

Definition set_plugin (self : Worker) (p : Plugin) : Worker :=
  mk_Worker (self_url self) (self_result_queue self) (self_log self)
    (self_relevance self) p (self_cover_url self) (self_audible_id self) (self_isbn self).

(** [self.result_queue.put(mi)] *)
Definition put (self : Worker) (mi : Metadata) : Worker :=
  mk_Worker (self_url self) (self_result_queue self ++ [mi]) (self_log self)
    (self_relevance self) (self_plugin self) (self_cover_url self)
    (self_audible_id self) (self_isbn self).

(** Reading a local variable: one that no assignment has bound yet
    raises [UnboundLocalError]. *)
Definition local (x : option json) : result json :=
  match x with
  | Some v => Ok v
  | None => Raise UnboundLocalError
  end.

Definition dquote : string := String (ascii_of_nat 34) EmptyString.

Section Config.

(** The builtins the interpreter provides. *)
Context {py : Builtins}.

Definition _convert_date_text (date_text : json) : result Datetime.datetime :=
  year ← Datetime.year <$> strptime date_text;
  month ← Datetime.month <$> strptime date_text;
  day ← Datetime.day <$> strptime date_text;
  Datetime.new year month day 0 0 0.

Definition parse_authors (root : json) : result json :=
  node ← getitem root "authors";
  items ← iter node;
  authors ← for_each (fun author => getitem author "name") items;
  Ok (JArr authors).

Definition parse_narrators (root : json) : result json :=
  node ← getitem root "narrators";
  items ← iter node;
  narrators ← for_each (fun narrator => getitem narrator "name") items;
  Ok (JArr narrators).

(** Returns [(series, series_index)]; [(None, None)] is [(JNull, None)].
    The log call sits between the parse and the return. *)
Definition parse_series (self : Worker) (root : json)
  : result (json * option float) * Worker :=
  match getitem root "seriesPrimary" with
  | Raise e => (Raise e, self)
  | Ok series_node =>
      if negb (truthy series_node) then (Ok (JNull, None), self)
      else
        let parsed :=
          series_name ← getitem series_node "name";
          position ← getitem series_node "position";
          series_split ← method_split_space position;
          token ← list_getitem series_split 1;
          series_index ← to_float (JStr token);
          Ok (series_name, series_index) in
        match parsed with
        | Raise e => (Raise e, self)
        | Ok (series_name, series_index) =>
            (Ok (series_name, Some series_index),
             log_call Error self
               "parse_series: returning - series_name='%s', series_index='%s'")
        end
  end.

(** [cfg.plugin_prefs[cfg.STORE_NAME][cfg.KEY_GENRE_MAPPINGS]]: the user's
    genre to tags table, as the items of the dict in insertion order.
    The configuration module is not part of the sources at hand, so the
    table is a parameter. *)
Variable calibre_tag_lookup : list (string * list string).

(** [self.plugin.clean_downloaded_metadata(mi)], the host's normalisation
    of a record, applied just before the record is queued. *)
Variable clean_downloaded_metadata : Metadata -> Metadata.

(** [dict((k.lower(), v) for (k, v) in calibre_tag_lookup.items())]: a
    later item replaces an earlier one with the same lowered key. *)
Definition calibre_tag_map : gmap string (list string) :=
  foldl (fun m kv => <[str_lower (fst kv) := snd kv]> m) ∅ calibre_tag_lookup.

(** The inner loop: append each tag that is not in the list yet. *)
Definition add_tags (tags_to_add tags : list string) : list string :=
  foldl (fun acc tag => if bool_decide (tag ∈ acc) then acc else acc ++ [tag])
        tags_to_add tags.

Fixpoint convert_loop (tags_to_add : list string) (genre_tags : list json)
  : result (list string) :=
  match genre_tags with
  | [] => Ok tags_to_add
  | genre_tag :: rest =>
      key ← method_lower genre_tag;
      match calibre_tag_map !! key with
      | Some ((_ :: _) as tags) => convert_loop (add_tags tags_to_add tags) rest
      | _ => convert_loop tags_to_add rest
      end
  end.

Definition _convert_genres_to_calibre_tags (genre_tags : list json)
  : result (list string) :=
  convert_loop [] genre_tags.

(** Returns the tags, or [None] when there is no genre or no tag. *)
Definition parse_tags (root : json) : result (option (list string)) :=
  genres_node ← getitem root "genres";
  if truthy genres_node then
    items ← iter genres_node;
    genre_tags ← for_each (fun genre_node => getitem genre_node "name") items;
    calibre_tags ← _convert_genres_to_calibre_tags genre_tags;
    if (0 <? List.length calibre_tags)%nat then Ok (Some calibre_tags) else Ok None
  else Ok None.

(** *** [parse_details]

    Every [try]/[except] block of the source is one definition: a
    [match] on the result of the guarded statement, the handler being the
    [Raise] case.  [parse_details] runs them in the order of the source. *)

(** Lines 82-98: the three required fields, with their defaults. *)
Definition try_audible_id (self : Worker) (root : json) : json * Worker :=
  match getitem root "asin" with
  | Ok v => (v, self)
  | Raise _ => (JNull, log_call Exception self "Error parsing audible id for url: %r")
  end.

Definition try_title (self : Worker) (root : json) : json * Worker :=
  match getitem root "title" with
  | Ok v => (v, self)
  | Raise _ => (JNull, log_call Exception self "Error parsing title for url: %r")
  end.

Definition try_authors (self : Worker) (root : json) : json * Worker :=
  match parse_authors root with
  | Ok v => (v, self)
  | Raise _ => (JArr [], log_call Exception self "Error parsing authors for url: %r")
  end.

(** Lines 111-115.  [narrators] is a local that only the [try] body
    binds: [None] is the unbound local.  The handler rebinds [authors],
    the second component, and leaves [narrators] as it was. *)
Definition try_narrators (self : Worker) (authors : json) (root : json)
  : option json * json * Worker :=
  match parse_narrators root with
  | Ok v => (Some v, authors, self)
  | Raise _ =>
      (None, JArr [], log_call Exception self "Error parsing authors for url: %r")
  end.

(** Lines 117-123 *)
Definition try_series (mi : Metadata) (self : Worker) (root : json)
  : Metadata * Worker :=
  match parse_series self root with
  | (Ok (series, series_index), self) =>
      if negb (is_None series) then
        match series_index with
        | Some index => (set_series mi series index, self)
        | None => (mi, self)
        end
      else (mi, self)
  | (Raise _, self) =>
      (mi, log_call Exception self "Error parsing series for url: %r")
  end.

(** Lines 125-128 *)
Definition try_rating (mi : Metadata) (self : Worker) (root : json)
  : Metadata * Worker :=
  match rating ← getitem root "rating"; to_float rating with
  | Ok rating => (set_rating mi rating, self)
  | Raise _ => (mi, log_call Exception self "Error parsing ratings for url: %r")
  end.

(** Lines 130-133: [summary] is bound by the [try] body only. *)
Definition try_summary (self : Worker) (root : json) : option json * Worker :=
  match getitem root "summary" with
  | Ok v => (Some v, self)
  | Raise _ => (None, log_call Exception self "Error parsing comments for url: %r")
  end.

(** Lines 135-139 *)
Definition try_cover (mi : Metadata) (self : Worker) (root : json)
  : Metadata * Worker :=
  let self :=
    match getitem root "image" with
    | Ok v => set_cover_url self v
    | Raise _ => log_call Exception self "Error parsing cover for url: %r"
    end in
  (set_has_cover mi (truthy (self_cover_url self)), self).

(** Lines 141-146 *)
Definition try_tags (mi : Metadata) (self : Worker) (root : json)
  : Metadata * Worker :=
  match parse_tags root with
  | Ok (Some tags) => (set_tags mi tags, self)
  | Ok None => (mi, self)
  | Raise _ => (mi, log_call Exception self "Error parsing tags for url: %r")
  end.

(** Lines 148-151 *)
Definition try_publisher (mi : Metadata) (self : Worker) (root : json)
  : Metadata * Worker :=
  match getitem root "publisherName" with
  | Ok v => (set_publisher mi v, self)
  | Raise _ => (mi, log_call Exception self "Error parsing publisher for url: %r")
  end.

(** Lines 153-156 *)
Definition try_pubdate (mi : Metadata) (self : Worker) (root : json)
  : Metadata * Worker :=
  match date_text ← getitem root "releaseDate"; _convert_date_text date_text with
  | Ok pubdate => (set_pubdate mi pubdate, self)
  | Raise _ => (mi, log_call Exception self "Error parsing date for url: %r")
  end.

(** Lines 158-161 *)
Definition try_language (mi : Metadata) (self : Worker) (root : json)
  : Metadata * Worker :=
  match language ← getitem root "language"; method_capitalize language with
  | Ok language => (set_language mi language, self)
  | Raise _ => (mi, log_call Exception self "Error parsing language for url: %r")
  end.

(** Lines 163-167: outside any [try]. *)
Definition assemble_comments (narrators summary : option json) : result string :=
  let commets := "" in
  narrators ← local narrators;
  commets ←
    (if negb (is_None narrators) then
       joined ← join ", " narrators;
       Ok ("<p id=" +:+ dquote +:+ "narrators" +:+ dquote +:+ ">Narrators: "
           +:+ joined +:+ "</p>" +:+ commets)
     else Ok commets);
  summary ← local summary;
  if negb (is_None summary) then str_add commets summary else Ok commets.

(** Lines 173-177 *)
Definition cache_associations (self : Worker) : Worker :=
  if truthy (self_audible_id self) then
    let self :=
      if truthy (self_isbn self) then
        set_plugin self (cache_isbn_to_identifier (self_plugin self)
                           (self_isbn self) (self_audible_id self))
      else self in
    if truthy (self_cover_url self) then
      set_plugin self (cache_identifier_to_cover_url (self_plugin self)
                         (self_audible_id self) (self_cover_url self))
    else self
  else self.

(** Lines 106-161: the record as the optional fields leave it, with the
    two locals the comments are built from. *)
Definition fill_fields (self : Worker) (title authors audible_id root : json)
  : Metadata * option json * option json * Worker :=
  let mi := new_Metadata title authors in
  let self := log_call Info self "parse_details - audible_id: {0}, mi: {1}" in
  let mi := set_identifier mi "audible" audible_id in
  let self := set_audible_id self audible_id in
  let '(narrators, authors, self) := try_narrators self authors root in
  let '(mi, self) := try_series mi self root in
  let '(mi, self) := try_rating mi self root in
  let '(summary, self) := try_summary self root in
  let '(mi, self) := try_cover mi self root in
  let '(mi, self) := try_tags mi self root in
  let '(mi, self) := try_publisher mi self root in
  let '(mi, self) := try_pubdate mi self root in
  let '(mi, self) := try_language mi self root in
  (mi, narrators, summary, self).

Definition parse_details (self : Worker) (root : json) : result unit * Worker :=
  let '(audible_id, self) := try_audible_id self root in
  let '(title, self) := try_title self root in
  let '(authors, self) := try_authors self root in
  if negb (truthy title) || negb (truthy authors) || negb (truthy audible_id) then
    let self := log_call Error self "Could not find title/authors/audible id for %r" in
    let self := log_call Error self "Audible: %r Title: %r Authors: %r" in
    (Ok (), self)
  else
    let '(mi, narrators, summary, self) :=
      fill_fields self title authors audible_id root in
    match assemble_comments narrators summary with
    | Raise e => (Raise e, self)
    | Ok commets =>
        let mi := set_comments mi commets in
        let mi := set_source_relevance mi (self_relevance self) in
        let self := cache_associations self in
        let mi := clean_downloaded_metadata mi in
        (Ok (), put self mi)
    end.

(** What [self.browser.open_novisit(self.url).read()] followed by
    [json.loads] can come to: an HTTP 404, a socket timeout, another
    failure of the request, or a body that [json.loads] decodes or
    rejects. *)
Inductive fetched : Set :=
| Http404
| TimedOut
| RequestFailed
| Body (decoded : result json).

Definition get_details (self : Worker) (page : fetched) : result unit * Worker :=
  let self := log_call Info self "Audnexus.us   url: %r" in
  match page with
  | Http404 => (Ok (), log_call Error self "URL malformed: %r")
  | TimedOut => (Ok (), log_call Error self "Audnexus.us timed out. Try again later.")
  | RequestFailed => (Ok (), log_call Exception self "Failed to make details query: %r")
  | Body (Raise e) => (Raise e, self)
  | Body (Ok root) =>
      if negb (truthy root) then
        (Ok (), log_call Error self "Failed to get json result for query")
      else parse_details self root
  end.

(** [run]: whatever [get_details] raises ends in the log. *)
Definition run (self : Worker) (page : fetched) : Worker :=
  match get_details self page with
  | (Ok _, self) => self
  | (Raise _, self) => log_call Exception self "get_details failed for url: %r"
  end.

End Config.
End Worker.

(** ** [src/__init__.py]: class [Audible] *)

Module Audible.
Import Py Host.

Definition ID_NAME : string := "audible".
Definition AUDIBLE_URL : string := "https://www.audible.com".
Definition AUDIBLE_API_URL : string := "https://api.audible.com".
Definition AUDNEXUS_URL : string := "https://api.audnex.us".

Definition AUDIBLE_PATH : string := "/pd/".
Definition AUDIBLE_API_PATH : string := "/1.0/catalog/products?".
Definition AUDNEXUS_PATH : string := "/books/".

Definition AUDIBLE_QUERY : string := "?ipRedirectOverride=true".
Definition AUDIBLE_API_QUERY : string := "num_results=25&products_sort_by=Relevance".
Definition AUDIBLE_API_TITLE_QUERY : string := "&title=".
Definition AUDIBLE_API_AUTHOR_QUERY : string := "&author=".

(** The arguments of the query builder are a [str] or [None], a list of
    [str] or [None], and a dict from [str] to [str]. *)
Definition truthy_str (v : option string) : bool :=
  match v with
  | Some s => negb (String.eqb s "")
  | None => false
  end.

Definition truthy_list (v : option (list string)) : bool :=
  match v with
  | Some (_ :: _) => true
  | _ => false
  end.

(** The [str] behind a value that passed [truthy_str]. *)
Definition str_of (v : option string) : string := default "" v.

(** [authors[0]] of a list that passed [truthy_list]. *)
Definition first_of (v : option (list string)) : string :=
  match v with
  | Some (a :: _) => a
  | _ => ""
  end.

Definition get_book_url (identifiers : gmap string string)
  : option (string * string * string) :=
  let audible_id := identifiers !! ID_NAME in
  if truthy_str audible_id then
    Some (ID_NAME, str_of audible_id,
          AUDIBLE_URL +:+ AUDIBLE_PATH +:+ str_of audible_id +:+ AUDIBLE_QUERY)
  else None.

Definition create_query (title : option string) (authors : option (list string))
    (identifiers : gmap string string) (asin : option string) : option string :=
  let audible_id := identifiers !! ID_NAME in
  let audible_id := if truthy_str asin then asin else audible_id in
  let q := "" in
  let q :=
    if truthy_str audible_id then
      AUDNEXUS_URL +:+ AUDNEXUS_PATH +:+ str_of audible_id
    else if truthy_str title || truthy_list authors then
      let q := AUDIBLE_API_URL +:+ AUDIBLE_API_PATH +:+ AUDIBLE_API_QUERY in
      let q := if truthy_str title
               then q +:+ AUDIBLE_API_TITLE_QUERY +:+ str_of title else q in
      let q := if truthy_list authors
               then q +:+ AUDIBLE_API_AUTHOR_QUERY +:+ first_of authors else q in
      q
    else q in
  if negb (truthy_str (Some q)) then None else Some q.

(** [None] or a cached [None] both read as [None]. *)
Definition get_cached_cover_url (self : Plugin) (identifiers : gmap string string)
  : option json :=
  let url := None in
  match identifiers !! ID_NAME with
  | Some audible_id =>
      match cached_identifier_to_cover_url self audible_id with
      | Some JNull => None
      | found => found
      end
  | None => url
  end.

(** [mi.identifiers] of a record, as the host keeps it: [str] to [str]. *)
Definition identifiers_of (mi : Metadata) : gmap string string :=
  foldr (fun kv m => match snd kv with
                     | JStr s => <[fst kv := s]> m
                     | _ => m
                     end) ∅ (mi_identifiers mi).

(** *** The candidates of [identify]

    [create_query(..., asin=v)] for a value [v] read from a search result:
    a [str] is used as it is, a value that tests false counts as no asin,
    and any other value fails where it is appended to the url. *)
Definition create_query_asin (title : option string) (authors : option (list string))
    (identifiers : gmap string string) (asin : json) : result (option string) :=
  match asin with
  | JStr s => Ok (create_query title authors identifiers (Some s))
  | v =>
      if truthy v then Raise TypeError
      else Ok (create_query title authors identifiers None)
  end.

(** What [br.open_novisit(query)] comes to: an HTTP 404, another
    exception, or a response whose body [json.loads] decodes or not
    (a failing [read] counts as not decoded). *)
Inductive searched : Set :=
| NotFound
| OtherFailure
| Response (decoded : result json).

(** What [identify] returns when it returns early. *)
Inductive returned : Set :=
| ReturnNone
| ReturnNotFound
| ReturnMessage (msg : string).

(** Where lines 119-158 of [identify] end: at a [return], or at line 159
    with the list [matches] of the urls to look up. *)
Inductive planned : Set :=
| Return (value : returned)
| Matches (matches : list (option string)).

Definition newline : string := String (ascii_of_nat 10) EmptyString.

(** Lines 119-158.  The request is made only when the identifiers hold no
    audible id and a query could be built; [search] is its outcome. *)
Definition identify_matches (log : list log_record) (title : option string)
    (authors : option (list string)) (identifiers : gmap string string)
    (search : searched) : planned * list log_record :=
  let audible_id := identifiers !! ID_NAME in
  let matches := [] in
  let log := log ++ [(Info, newline +:+ "Title: %s" +:+ newline +:+ "Authors: %s"
                            +:+ newline)] in
  if truthy_str audible_id then
    (Matches (matches ++ [create_query title authors identifiers None]), log)
  else
    match create_query title authors identifiers None with
    | None => (Return ReturnNone,
               log ++ [(Error, "Insufficient metadata to construct query")])
    | Some query =>
        let log := log ++ [(Info, "Query: %s")] in
        match search with
        | NotFound =>
            (Return ReturnNotFound, log ++ [(Error, "No matches for identify query")])
        | OtherFailure => (Matches matches, log)
        | Response (Raise _) =>
            (Return (ReturnMessage "Failed to get Audible results for query"),
             log ++ [(Exception, "Failed to get Audible results for query")])
        | Response (Ok raw) =>
            if negb (truthy raw) then
              (Return ReturnNone,
               log ++ [(Error, "Failed to get raw result for query")])
            else
              match products ← getitem raw "products";
                    items ← iter products;
                    for_each (fun product =>
                                asin ← getitem product "asin";
                                create_query_asin title authors identifiers asin)
                             items with
              | Ok found => (Matches (matches ++ found), log)
              | Raise _ =>
                  (Return (ReturnMessage "Failed to get Audible results for query"),
                   log ++ [(Exception, "Failed to get Audible results for query")])
              end
        end
    end.

(** *** Calls

    A call of a method declared without [*args] and [**kwargs] binds its
    arguments before the body runs, and raises [TypeError] for too many
    positional arguments, for a keyword that names no parameter or one
    already given by position, and for a parameter without default left
    unbound.  [params] are the parameters after [self], the first
    [required] of them without default. *)
Definition bind_call (params : list string) (required positional : nat)
    (keywords : list string) : result unit :=
  if (List.length params <? positional)%nat then Raise TypeError
  else if existsb (fun k => negb (bool_decide (k ∈ params))) keywords then Raise TypeError
  else if existsb (fun k => bool_decide (k ∈ take positional params)) keywords
  then Raise TypeError
  else if forallb (fun p => bool_decide (p ∈ take positional params)
                            || bool_decide (p ∈ keywords)) (take required params)
  then Ok ()
  else Raise TypeError.

(** [def identify(self, log, result_queue, abort, title=None, authors=None,
    identifiers={}, timeout=30)] *)
Definition identify_params : list string :=
  ["log"; "result_queue"; "abort"; "title"; "authors"; "identifiers"; "timeout"].

(** The objects [download_cover] works on: the plugin with its caches,
    the log, and the queue its caller reads the cover from. *)
Record State : Set := mk_State {
  st_plugin : Plugin;
  st_log : list log_record;
  st_result_queue : list string
}.

Definition log_info (st : State) (msg : string) : State :=
  mk_State (st_plugin st) (st_log st ++ [(Info, msg)]) (st_result_queue st).

Definition log_exception (st : State) (msg : string) : State :=
  mk_State (st_plugin st) (st_log st ++ [(Exception, msg)]) (st_result_queue st).

Section Flow.

(** The body of [identify] starts worker threads and waits for them; it
    is taken as it comes: from the plugin, the log, the cancellation flag
    and the query it gives the records put on its queue and the plugin
    and log as the workers left them, or raises. *)
Variable identify_body :
  Plugin -> list log_record -> bool ->
  option string -> option (list string) -> gmap string string ->
  result unit * (Plugin * list log_record * list Metadata).

(** [results.sort(key=self.identify_results_keygen(...))], the host's
    ranking of the records. *)
Variable sort_results :
  option string -> option (list string) -> gmap string string ->
  list Metadata -> list Metadata.

(** [self.browser.open_novisit(url, timeout=timeout).read()] *)
Variable open_novisit_read : json -> result string.

(** A call [self.identify(log, rq, abort, k1=..., k2=..., ...)] with three
    positional arguments and the keywords [keywords]. *)
Definition identify (keywords : list string) (self : Plugin)
    (log : list log_record) (abort : bool) (title : option string)
    (authors : option (list string)) (identifiers : gmap string string)
  : result unit * (Plugin * list log_record * list Metadata) :=
  match bind_call identify_params 3 3 keywords with
  | Raise e => (Raise e, (self, log, []))
  | Ok _ => identify_body self log abort title authors identifiers
  end.

(** The [for mi in results] loop: the first record with a cached cover. *)
Fixpoint first_cached (self : Plugin) (results : list Metadata) : option json :=
  match results with
  | [] => None
  | mi :: rest =>
      match get_cached_cover_url self (identifiers_of mi) with
      | Some url => Some url
      | None => first_cached self rest
      end
  end.

(** From [if cached_url is None: log.info('No cover found')] on. *)
Definition fetch_cover (st : State) (abort : bool) (cached_url : option json)
  : result unit * State :=
  match cached_url with
  | None => (Ok (), log_info st "No cover found")
  | Some cached_url =>
      if abort then (Ok (), st)
      else
        let st := log_info st "Downloading cover from:" in
        match open_novisit_read cached_url with
        | Ok cdata =>
            (Ok (), mk_State (st_plugin st) (st_log st) (st_result_queue st ++ [cdata]))
        | Raise _ => (Ok (), log_exception st "Failed to download cover from:")
        end
  end.

Definition download_cover (st : State) (abort : bool) (title : option string)
    (authors : option (list string)) (identifiers : gmap string string)
  : result unit * State :=
  let cached_url := get_cached_cover_url (st_plugin st) identifiers in
  match cached_url with
  | None =>
      let st := log_info st "No cached cover found, running identify" in
      match identify ["title"; "authors"; "hiddenauthors"; "identifiers"]
              (st_plugin st) (st_log st) abort title authors identifiers with
      | (Raise e, (plugin, log, _)) =>
          (Raise e, mk_State plugin log (st_result_queue st))
      | (Ok _, (plugin, log, rq)) =>
          let st := mk_State plugin log (st_result_queue st) in
          if abort then (Ok (), st)
          else
            let results := sort_results title authors identifiers rq in
            fetch_cover st abort (first_cached (st_plugin st) results)
      end
  | Some _ => fetch_cover st abort cached_url
  end.

End Flow.
End Audible.

(** * Notions the statements use *)

Import Py Builtin Host.

#[local] Arguments String.append !_ _ : simpl nomatch.

(** The catalog search form: a URL on the catalog endpoint of the API host. *)
Definition is_search_form (q : string) : bool :=
  String.prefix (Audible.AUDIBLE_API_URL +:+ Audible.AUDIBLE_API_PATH) q.

(** An argument without a value: [None] or the empty string, which the
    builder tests alike. *)
Definition absent (v : option string) : Prop := v = None \/ v = Some "".

(** The parameter a title adds to the search URL: nothing for no title. *)
Definition title_parameter (title : option string) : string :=
  match title with
  | Some (String c t) => "&title=" +:+ String c t
  | _ => ""
  end.

(** The parameter the authors add: their first, when there is one. *)
Definition author_parameter (authors : option (list string)) : string :=
  match authors with
  | Some (a :: _) => "&author=" +:+ a
  | _ => ""
  end.

(** The tags of the table entry whose key is the genre up to case (the
    two have the same lower-case form); of several such entries, the last
    one. *)
Fixpoint lookup_ci `{Builtins} (table : list (string * list string)) (genre : string)
  : option (list string) :=
  match table with
  | [] => None
  | (k, tags) :: rest =>
      match lookup_ci rest genre with
      | Some tags' => Some tags'
      | None => if String.eqb (str_lower k) (str_lower genre) then Some tags else None
      end
  end.

(** All the tags the genres map to, in the order of the genres. *)
Definition mapped_tags `{Builtins} (table : list (string * list string))
    (genres : list string) : list string :=
  concat (map (fun g => default [] (lookup_ci table g)) genres).

(** A list without its repetitions, each element where it occurs first. *)
Fixpoint first_occurrences (l : list string) : list string :=
  match l with
  | [] => []
  | x :: rest => x :: filter (fun y => y <> x) (first_occurrences rest)
  end.

(** Following the spec's words: the whitespace-separated tokens of a
    string, that is its maximal runs of characters that are not white
    space ([cur] is the token being read). *)
Fixpoint tokens_from (cur : string) (s : string) : list string :=
  match s with
  | EmptyString => if String.eqb cur "" then [] else [cur]
  | String c rest =>
      if is_space c then
        (if String.eqb cur "" then tokens_from "" rest
         else cur :: tokens_from "" rest)
      else tokens_from (cur +:+ String c EmptyString) rest
  end.

Definition whitespace_tokens (s : string) : list string := tokens_from "" s.

(** A document field that is present and not empty. *)
Definition present (root : json) (field : string) : Prop :=
  exists v, getitem root field = Ok v /\ truthy v = true.

(** The image field as a truth value: present and not empty. *)
Definition has_image (root : json) : bool :=
  match getitem root "image" with
  | Ok v => truthy v
  | Raise _ => false
  end.

(** A document with the three required fields: identifier and title
    present and not empty, and a non-empty list of author names. *)
Definition has_required_fields (root : json) : Prop :=
  present root "asin" /\ present root "title"
  /\ exists authors, Worker.parse_authors root = Ok authors /\ truthy authors = true.

(** The narrators and the summary extract, and the comments can be put
    together from them. *)
Definition comments_assemble (root : json) : Prop :=
  exists narrators summary comments,
    Worker.parse_narrators root = Ok narrators
    /\ getitem root "summary" = Ok summary
    /\ Worker.assemble_comments (Some narrators) (Some summary) = Ok comments.

(** Two workers that differ in their log at most. *)
Definition same_but_log (self self' : Worker.Worker) : Prop :=
  Worker.self_url self' = Worker.self_url self
  /\ Worker.self_result_queue self' = Worker.self_result_queue self
  /\ Worker.self_relevance self' = Worker.self_relevance self
  /\ Worker.self_plugin self' = Worker.self_plugin self
  /\ Worker.self_cover_url self' = Worker.self_cover_url self
  /\ Worker.self_audible_id self' = Worker.self_audible_id self
  /\ Worker.self_isbn self' = Worker.self_isbn self.

(** Two records with the same series, cover flag, identifiers, title and
    authors. *)
Definition same_core (mi mi' : Metadata) : Prop :=
  mi_series mi' = mi_series mi
  /\ mi_series_index mi' = mi_series_index mi
  /\ mi_has_cover mi' = mi_has_cover mi
  /\ mi_identifiers mi' = mi_identifiers mi
  /\ mi_title mi' = mi_title mi
  /\ mi_authors mi' = mi_authors mi.

(** The plugin after lines 173-177, for a worker whose [audible_id] is
    not empty. *)
Definition cached (plugin : Plugin) (isbn id cover : json) : Plugin :=
  let plugin :=
    if truthy isbn then cache_isbn_to_identifier plugin isbn id else plugin in
  if truthy cover then cache_identifier_to_cover_url plugin id cover else plugin.

(** The paragraph the comments start with: the narrators' names,
    separated by a comma and a space. *)
Definition narrators_paragraph (names : list string) : string :=
  "<p id=" +:+ Worker.dquote +:+ "narrators" +:+ Worker.dquote +:+ ">Narrators: "
  +:+ String.concat ", " names +:+ "</p>".

(** The text a summary adds to the comments: nothing for [None]. *)
Definition summary_text (summary : json) : string :=
  match summary with
  | JStr s => s
  | _ => ""
  end.

(** The decimal numeral of a natural number, without sign and without
    leading zeros. *)
Definition decimal (n : N) : string :=
  DecimalString.NilEmpty.string_of_uint (N.to_uint n).

(** The characters of a decimal numeral. *)
Definition numeral (u : Decimal.uint) : list ascii :=
  list_ascii_of_string (DecimalString.NilEmpty.string_of_uint u).

(** The record [identify] starts its log with. *)
Definition titles_record : log_record :=
  (Info, Audible.newline +:+ "Title: %s" +:+ Audible.newline
         +:+ "Authors: %s" +:+ Audible.newline).

(** A value the [datetime] constructor makes: every [datetime] object is
    one. *)
Definition is_datetime (dt : Datetime.datetime) : Prop :=
  Datetime.new (Datetime.year dt) (Datetime.month dt) (Datetime.day dt)
               (Datetime.hour dt) (Datetime.minute dt) (Datetime.second dt)
  = Ok dt.


(** A string with a space in it. *)
Fixpoint has_space (s : string) : bool :=
  match s with
  | EmptyString => false
  | String c rest => Ascii.eqb c " " || has_space rest
  end.

(** * Properties *)

(** ** The query builder *)

Lemma append_assoc (a b c : string) : (a +:+ b) +:+ c = a +:+ (b +:+ c).
Proof. induction a as [|x a IH]; simpl; [reflexivity | f_equal; exact IH]. Qed.

Lemma append_empty_r (a : string) : a +:+ "" = a.
Proof. induction a as [|x a IH]; simpl; [reflexivity | f_equal; exact IH]. Qed.

(** C4: without a title, without authors (absent or empty), without an
    audible identifier in the map and without an asin override, the query
    builder returns [None]. *)
Theorem create_query_insufficient_input
    (title : option string) (authors : option (list string))
    (identifiers : gmap string string) (asin : option string) :
  title = None ->
  authors = None \/ authors = Some [] ->
  identifiers !! Audible.ID_NAME = None ->
  asin = None ->
  Audible.create_query title authors identifiers asin = None.
Proof.
  intros -> Hauthors Hid ->.
  unfold Audible.create_query. rewrite Hid. simpl.
  destruct Hauthors as [-> | ->]; reflexivity.
Qed.

Lemma create_query_insufficient_input_witness :
  Audible.create_query None (Some []) ∅ None = None.
Proof.
  apply create_query_insufficient_input;
    [reflexivity | right; reflexivity | reflexivity | reflexivity].
Defined.

Lemma absent_truthy_str (v : option string) :
  absent v -> Audible.truthy_str v = false.
Proof. by intros [-> | ->]. Qed.

(** C5: when an audible identifier is present (the asin argument, or
    else the entry of the identifiers map; present means given and not
    empty, which is what the builder tests), the result is the detail
    lookup URL [https://api.audnex.us/books/<id>] and not a catalog search
    URL, whatever the title and the authors are. *)
Theorem create_query_identifier_gives_detail_url
    (title : option string) (authors : option (list string))
    (identifiers : gmap string string) (asin : option string) (id : string) :
  id <> "" ->
  asin = Some id \/ (absent asin /\ identifiers !! Audible.ID_NAME = Some id) ->
  Audible.create_query title authors identifiers asin
    = Some ("https://api.audnex.us/books/" +:+ id)
  /\ is_search_form ("https://api.audnex.us/books/" +:+ id) = false.
Proof.
  intros Hne Hid. split; [|reflexivity].
  destruct id as [|c id]; [done|].
  unfold Audible.create_query.
  destruct Hid as [-> | [Hasin Hmap]].
  - reflexivity.
  - rewrite (absent_truthy_str _ Hasin), Hmap. reflexivity.
Qed.

Lemma create_query_identifier_gives_detail_url_witness :
  Audible.create_query (Some "1984") (Some ["George Orwell"])
      {[ "audible" := "B002V19RO6" ]} None
    = Some "https://api.audnex.us/books/B002V19RO6"
  /\ is_search_form "https://api.audnex.us/books/B002V19RO6" = false.
Proof.
  apply (create_query_identifier_gives_detail_url
           (Some "1984") (Some ["George Orwell"])
           {[ "audible" := "B002V19RO6" ]} None "B002V19RO6").
  - discriminate.
  - right. split; [left|]; reflexivity.
Defined.

(** The asin argument goes before the entry of the identifiers map. *)
Example create_query_asin_first :
  Audible.create_query (Some "1984") None {[ "audible" := "B002V19RO6" ]}
    (Some "B00EXAMPLE")
  = Some "https://api.audnex.us/books/B00EXAMPLE".
Proof. reflexivity. Qed.

(** C8: without an identifier, and with a title or a non-empty list of
    authors, the result is exactly the catalog search URL, followed by
    [&title=<title>] when there is a title and by [&author=<first author>]
    when there are authors, both copied as they are. *)
Theorem create_query_search_url
    (title : option string) (authors : option (list string))
    (identifiers : gmap string string) (asin : option string) :
  absent (identifiers !! Audible.ID_NAME) ->
  absent asin ->
  (exists t, title = Some t /\ t <> "") \/ (exists a l, authors = Some (a :: l)) ->
  Audible.create_query title authors identifiers asin
    = Some ("https://api.audible.com/1.0/catalog/products?num_results=25&products_sort_by=Relevance"
            +:+ title_parameter title +:+ author_parameter authors).
Proof.
  intros Hid Hasin Hsome.
  unfold Audible.create_query.
  rewrite (absent_truthy_str _ Hasin), (absent_truthy_str _ Hid).
  destruct title as [[|c t]|], authors as [[|a l]|]; simpl;
    try (by destruct Hsome as [(?&?&?)|(?&?&?)]; simplify_eq);
    try reflexivity.
  all: rewrite ?append_assoc, ?append_empty_r; reflexivity.
Qed.

Lemma create_query_search_url_witness :
  Audible.create_query (Some "1984") (Some ["George Orwell"; "E. Blair"]) ∅ None
    = Some "https://api.audible.com/1.0/catalog/products?num_results=25&products_sort_by=Relevance&title=1984&author=George Orwell".
Proof.
  apply (create_query_search_url (Some "1984")
           (Some ["George Orwell"; "E. Blair"]) ∅ None);
    [left; reflexivity | left; reflexivity
    | left; exists "1984"; split; [reflexivity | discriminate]].
Defined.

(** The parameters are not URL-encoded. *)
Example create_query_not_encoded :
  Audible.create_query (Some "War & Peace") None ∅ None
  = Some "https://api.audible.com/1.0/catalog/products?num_results=25&products_sort_by=Relevance&title=War & Peace".
Proof. reflexivity. Qed.

Import Worker.

Create HintDb steps.

Section Properties.

(** The statements hold whatever the builtins compute. *)
Context {py : Builtins}.

(** ** Genres to tags *)

Lemma calibre_tag_map_foldl table (m : gmap string (list string)) (g : string) :
  foldl (fun m kv => <[str_lower (fst kv) := snd kv]> m) m table !! str_lower g
  = match lookup_ci table g with
    | Some tags => Some tags
    | None => m !! str_lower g
    end.
Proof.
  revert m. induction table as [|[k tags] table IH]; intros m; simpl.
  - reflexivity.
  - rewrite IH. destruct (lookup_ci table g); [reflexivity|].
    destruct (String.eqb_spec (str_lower k) (str_lower g)) as [->|Hne].
    + by rewrite lookup_insert_eq.
    + by rewrite lookup_insert_ne.
Qed.

Lemma calibre_tag_map_lookup table (g : string) :
  Worker.calibre_tag_map table !! str_lower g = lookup_ci table g.
Proof.
  unfold Worker.calibre_tag_map. rewrite calibre_tag_map_foldl.
  destruct (lookup_ci table g); [reflexivity | apply lookup_empty].
Qed.

Lemma first_occurrences_elem (l : list string) (x : string) :
  x ∈ first_occurrences l <-> x ∈ l.
Proof.
  induction l as [|y l IH]; simpl; [reflexivity|].
  rewrite !elem_of_cons, list_elem_of_filter, IH.
  destruct (decide (x = y)); tauto.
Qed.

Lemma first_occurrences_NoDup (l : list string) : NoDup (first_occurrences l).
Proof.
  induction l as [|y l IH]; simpl; [constructor|].
  constructor.
  - rewrite list_elem_of_filter. intros [Hne _]. by apply Hne.
  - by apply NoDup_filter.
Qed.

Lemma first_occurrences_snoc (l : list string) (t : string) :
  first_occurrences (l ++ [t])
  = if bool_decide (t ∈ first_occurrences l) then first_occurrences l
    else first_occurrences l ++ [t].
Proof.
  induction l as [|x l IH].
  - reflexivity.
  - cbn [app first_occurrences]. rewrite IH.
    destruct (decide (t = x)) as [->|Hne].
    + rewrite (bool_decide_eq_true_2 (x ∈ x :: _)) by apply list_elem_of_here.
      case_bool_decide; [reflexivity|].
      rewrite filter_app, filter_cons_False, filter_nil by (intros Hx; by apply Hx).
      by rewrite app_nil_r.
    + case_bool_decide as Hin.
      * rewrite bool_decide_eq_true_2; [reflexivity|].
        apply list_elem_of_further, list_elem_of_filter. done.
      * rewrite bool_decide_eq_false_2.
        -- by rewrite filter_app, filter_cons_True, filter_nil.
        -- rewrite elem_of_cons, list_elem_of_filter. tauto.
Qed.

Lemma add_tags_first_occurrences (l tags : list string) :
  Worker.add_tags (first_occurrences l) tags = first_occurrences (l ++ tags).
Proof.
  revert l. induction tags as [|t tags IH]; intros l.
  - by rewrite app_nil_r.
  - unfold Worker.add_tags in *. simpl.
    rewrite <- first_occurrences_snoc, IH, <- app_assoc. reflexivity.
Qed.

Lemma convert_loop_cons table (acc : list string) (g : string) (rest : list json) :
  Worker.convert_loop table acc (JStr g :: rest)
  = match Worker.calibre_tag_map table !! str_lower g with
    | Some ((_ :: _) as tags) => Worker.convert_loop table (Worker.add_tags acc tags) rest
    | _ => Worker.convert_loop table acc rest
    end.
Proof. reflexivity. Qed.

Lemma mapped_tags_cons table (g : string) (genres : list string) :
  mapped_tags table (g :: genres)
  = default [] (lookup_ci table g) ++ mapped_tags table genres.
Proof. reflexivity. Qed.

Lemma convert_loop_first_occurrences table (l genres : list string) :
  Worker.convert_loop table (first_occurrences l) (JStr <$> genres)
  = Ok (first_occurrences (l ++ mapped_tags table genres)).
Proof.
  revert l. induction genres as [|g genres IH]; intros l.
  - unfold mapped_tags. simpl. by rewrite app_nil_r.
  - rewrite fmap_cons, convert_loop_cons, mapped_tags_cons, calibre_tag_map_lookup.
    destruct (lookup_ci table g) as [[|t tags]|]; cbn [default].
    + apply IH.
    + rewrite add_tags_first_occurrences, IH, <- app_assoc. reflexivity.
    + apply IH.
Qed.

Lemma lookup_ci_lower table (g g' : string) :
  str_lower g' = str_lower g -> lookup_ci table g' = lookup_ci table g.
Proof.
  intros Heq. induction table as [|[k tags] table IH]; simpl; [reflexivity|].
  by rewrite IH, Heq.
Qed.

Lemma mapped_tags_lower table (genres genres' : list string) :
  str_lower <$> genres' = str_lower <$> genres ->
  mapped_tags table genres' = mapped_tags table genres.
Proof.
  revert genres'. induction genres as [|g genres IH]; intros [|g' genres'] Heq;
    try discriminate; [reflexivity|].
  injection Heq as Hg Hrest. unfold mapped_tags in *. simpl.
  by rewrite (lookup_ci_lower _ _ _ Hg), (IH _ Hrest).
Qed.

Lemma lookup_ci_table_lower table table' (g : string) :
  Forall2 (fun e e' => str_lower (fst e') = str_lower (fst e) /\ snd e' = snd e) table table' ->
  lookup_ci table' g = lookup_ci table g.
Proof.
  induction 1 as [|[k tags] [k' tags'] table table' [Hk Ht] _ IH]; simpl in *;
    [reflexivity|].
  by rewrite IH, Hk, Ht.
Qed.

Lemma mapped_tags_elem table (genres : list string) (tag : string) :
  tag ∈ mapped_tags table genres
  <-> exists g tags, g ∈ genres /\ lookup_ci table g = Some tags /\ tag ∈ tags.
Proof.
  unfold mapped_tags. rewrite list_elem_of_In, in_concat. split.
  - intros (tags & Hin & Htag). apply in_map_iff in Hin.
    destruct Hin as (g & <- & Hg). apply list_elem_of_In in Hg.
    destruct (lookup_ci table g) as [tags|] eqn:E; simpl in Htag; [|done].
    exists g, tags. split; [done|]. split; [done|]. by apply list_elem_of_In.
  - intros (g & tags & Hg & Hlook & Htag). exists tags. split.
    + apply in_map_iff. exists g. rewrite Hlook.
      split; [reflexivity | by apply list_elem_of_In].
    + by apply list_elem_of_In.
Qed.

Lemma convert_genres_result table (genres : list string) :
  Worker._convert_genres_to_calibre_tags table (JStr <$> genres)
  = Ok (first_occurrences (mapped_tags table genres)).
Proof. apply (convert_loop_first_occurrences table []). Qed.

(** C6: for every list of genre strings and every genre to tags table,
    the conversion succeeds; genres and table keys are compared in lower
    case, so a genre matches a key without regard to case, and replacing
    genres or keys by others with the same lower-case form changes
    nothing; the result holds exactly the tags of the matched entries,
    each once, in the order of their first occurrence. *)
Theorem convert_genres_case_insensitive_first_seen
    (table : list (string * list string)) (genres : list string) :
  exists out,
    Worker._convert_genres_to_calibre_tags table (JStr <$> genres) = Ok out
    /\ out = first_occurrences (mapped_tags table genres)
    /\ NoDup out
    /\ (forall tag, tag ∈ out <->
          exists g tags, g ∈ genres /\ lookup_ci table g = Some tags /\ tag ∈ tags)
    /\ (forall genres', str_lower <$> genres' = str_lower <$> genres ->
          Worker._convert_genres_to_calibre_tags table (JStr <$> genres') = Ok out)
    /\ (forall table',
          Forall2 (fun e e' => str_lower (fst e') = str_lower (fst e) /\ snd e' = snd e)
                  table table' ->
          Worker._convert_genres_to_calibre_tags table' (JStr <$> genres) = Ok out).
Proof.
  exists (first_occurrences (mapped_tags table genres)).
  repeat split.
  - apply convert_genres_result.
  - apply first_occurrences_NoDup.
  - rewrite first_occurrences_elem. apply mapped_tags_elem.
  - rewrite first_occurrences_elem. apply mapped_tags_elem.
  - intros genres' Heq.
    by rewrite convert_genres_result, (mapped_tags_lower _ _ _ Heq).
  - intros table' Htable.
    rewrite convert_genres_result. do 2 f_equal. unfold mapped_tags. f_equal.
    apply map_ext. intros g. by rewrite (lookup_ci_table_lower _ _ g Htable).
Qed.

(** ** The detail parser: what each block leaves untouched *)

Lemma same_but_log_refl self : same_but_log self self.
Proof. by repeat split. Qed.

Lemma same_but_log_trans a b c :
  same_but_log a b -> same_but_log b c -> same_but_log a c.
Proof.
  unfold same_but_log. intros (?&?&?&?&?&?&?) (?&?&?&?&?&?&?).
  repeat split; congruence.
Qed.

Lemma log_call_same lvl self msg : same_but_log self (log_call lvl self msg).
Proof. by repeat split. Qed.

Lemma same_core_refl mi : same_core mi mi.
Proof. by repeat split. Qed.

Lemma same_core_trans a b c : same_core a b -> same_core b c -> same_core a c.
Proof.
  unfold same_core. intros (?&?&?&?&?&?) (?&?&?&?&?&?).
  repeat split; congruence.
Qed.

#[local] Hint Resolve same_but_log_refl log_call_same same_core_refl : steps.

Lemma parse_series_same self root :
  same_but_log self (snd (parse_series self root)).
Proof.
  unfold parse_series.
  repeat case_match; simpl; auto with steps.
Qed.

Lemma parse_series_fst self self' root :
  fst (parse_series self root) = fst (parse_series self' root).
Proof.
  unfold parse_series.
  repeat case_match; simplify_eq; reflexivity.
Qed.

Ltac step_tac f :=
  unfold f; repeat case_match; simplify_eq; simpl; split; auto with steps;
  by repeat split.

Lemma try_narrators_step self authors root :
  same_but_log self (snd (try_narrators self authors root))
  /\ fst (fst (try_narrators self authors root))
     = match parse_narrators root with Ok v => Some v | Raise _ => None end.
Proof. unfold try_narrators. case_match; simpl; auto with steps. Qed.

Lemma try_summary_step self root :
  same_but_log self (snd (try_summary self root))
  /\ fst (try_summary self root)
     = match getitem root "summary" with Ok v => Some v | Raise _ => None end.
Proof. unfold try_summary. case_match; simpl; auto with steps. Qed.

Lemma try_rating_step mi self root :
  same_but_log self (snd (try_rating mi self root))
  /\ same_core mi (fst (try_rating mi self root)).
Proof. step_tac @try_rating. Qed.

Lemma try_tags_step table mi self root :
  same_but_log self (snd (try_tags table mi self root))
  /\ same_core mi (fst (try_tags table mi self root)).
Proof. step_tac @try_tags. Qed.

Lemma try_publisher_step mi self root :
  same_but_log self (snd (try_publisher mi self root))
  /\ same_core mi (fst (try_publisher mi self root)).
Proof. step_tac @try_publisher. Qed.

Lemma try_pubdate_step mi self root :
  same_but_log self (snd (try_pubdate mi self root))
  /\ same_core mi (fst (try_pubdate mi self root)).
Proof. step_tac @try_pubdate. Qed.

Lemma try_language_step mi self root :
  same_but_log self (snd (try_language mi self root))
  /\ same_core mi (fst (try_language mi self root)).
Proof. step_tac @try_language. Qed.

(** The series block sets both series attributes or none. *)
Lemma try_series_step mi self root :
  same_but_log self (snd (try_series mi self root))
  /\ mi_has_cover (fst (try_series mi self root)) = mi_has_cover mi
  /\ (mi_series (fst (try_series mi self root)),
      mi_series_index (fst (try_series mi self root)))
     = match fst (parse_series self root) with
       | Ok (series, Some index) =>
           if is_None series then (mi_series mi, mi_series_index mi)
           else (Some series, Some index)
       | _ => (mi_series mi, mi_series_index mi)
       end.
Proof.
  unfold try_series.
  pose proof (parse_series_same self root) as Hsame.
  destruct (parse_series self root) as [[[series [index|]]|e] self1]; simpl in *.
  - destruct (is_None series); simpl; auto.
  - destruct (is_None series); simpl; auto.
  - split; [|done]. eapply same_but_log_trans; eauto with steps.
Qed.

(** The cover block sets the worker's cover url and the cover flag. *)
Lemma try_cover_step mi self root :
  let self' := snd (try_cover mi self root) in
  let mi' := fst (try_cover mi self root) in
  self_result_queue self' = self_result_queue self
  /\ self_relevance self' = self_relevance self
  /\ self_plugin self' = self_plugin self
  /\ self_audible_id self' = self_audible_id self
  /\ self_isbn self' = self_isbn self
  /\ self_cover_url self'
     = match getitem root "image" with
       | Ok v => v
       | Raise _ => self_cover_url self
       end
  /\ mi_has_cover mi' = Some (truthy (self_cover_url self'))
  /\ mi_series mi' = mi_series mi
  /\ mi_series_index mi' = mi_series_index mi.
Proof.
  unfold try_cover. destruct (getitem root "image"); simpl; by repeat split.
Qed.

(** What [fill_fields] hands to the rest of [parse_details]. *)
Lemma fill_fields_spec table self title authors id root :
  let '(mi, narrators, summary, self') :=
    fill_fields table self title authors id root in
  self_result_queue self' = self_result_queue self
  /\ self_relevance self' = self_relevance self
  /\ self_plugin self' = self_plugin self
  /\ self_isbn self' = self_isbn self
  /\ self_audible_id self' = id
  /\ self_cover_url self'
     = match getitem root "image" with
       | Ok v => v
       | Raise _ => self_cover_url self
       end
  /\ narrators = match parse_narrators root with Ok v => Some v | Raise _ => None end
  /\ summary = match getitem root "summary" with Ok v => Some v | Raise _ => None end
  /\ mi_has_cover mi = Some (truthy (self_cover_url self'))
  /\ (mi_series mi, mi_series_index mi)
     = match fst (parse_series self root) with
       | Ok (series, Some index) =>
           if is_None series then (None, None) else (Some series, Some index)
       | _ => (None, None)
       end.
Proof.
  unfold fill_fields.
  set (self0 := set_audible_id _ id).
  set (mi0 := set_identifier _ _ _).
  pose proof (try_narrators_step self0 authors root) as [Hn1 Hn2].
  destruct (try_narrators self0 authors root) as [[narrators authors'] self1].
  pose proof (try_series_step mi0 self1 root) as (Hs1 & Hs2 & Hs3).
  destruct (try_series mi0 self1 root) as [mi2 self2].
  pose proof (try_rating_step mi2 self2 root) as [Hr1 Hr2].
  destruct (try_rating mi2 self2 root) as [mi3 self3].
  pose proof (try_summary_step self3 root) as [Hy1 Hy2].
  destruct (try_summary self3 root) as [summary self4].
  pose proof (try_cover_step mi3 self4 root) as Hc.
  destruct (try_cover mi3 self4 root) as [mi5 self5].
  pose proof (try_tags_step table mi5 self5 root) as [Ht1 Ht2].
  destruct (try_tags table mi5 self5 root) as [mi6 self6].
  pose proof (try_publisher_step mi6 self6 root) as [Hp1 Hp2].
  destruct (try_publisher mi6 self6 root) as [mi7 self7].
  pose proof (try_pubdate_step mi7 self7 root) as [Hd1 Hd2].
  destruct (try_pubdate mi7 self7 root) as [mi8 self8].
  pose proof (try_language_step mi8 self8 root) as [Hl1 Hl2].
  destruct (try_language mi8 self8 root) as [mi9 self9].
  simpl in *.
  rewrite (parse_series_fst self self1 root).
  destruct Hc as (Hc1 & Hc2 & Hc3 & Hc4 & Hc5 & Hc6 & Hc7 & Hc8 & Hc9).
  assert (Hlate : same_but_log self5 self9).
  { repeat (eapply same_but_log_trans; [eassumption|]). apply same_but_log_refl. }
  assert (Hearly : same_but_log self0 self4).
  { repeat (eapply same_but_log_trans; [eassumption|]). apply same_but_log_refl. }
  assert (Hmi : same_core mi5 mi9).
  { repeat (eapply same_core_trans; [eassumption|]). apply same_core_refl. }
  destruct Hlate as (?&?&?&?&?&?&?), Hearly as (?&?&?&?&?&?&?).
  destruct Hmi as (?&?&?&?&?&?), Hr2 as (?&?&?&?&?&?).
  assert (Hcov : self_cover_url self9
                 = match getitem root "image" with
                   | Ok v => v
                   | Raise _ => self_cover_url self
                   end).
  { transitivity (self_cover_url self5); [congruence|]. rewrite Hc6.
    destruct (getitem root "image"); [reflexivity|].
    transitivity (self_cover_url self0); [congruence | reflexivity]. }
  assert (self_result_queue self0 = self_result_queue self) by reflexivity.
  assert (self_relevance self0 = self_relevance self) by reflexivity.
  assert (self_plugin self0 = self_plugin self) by reflexivity.
  assert (self_isbn self0 = self_isbn self) by reflexivity.
  assert (self_audible_id self0 = id) by reflexivity.
  repeat split; try congruence.
Qed.

(** ** The detail parser: the two ways through [parse_details] *)

Lemma parse_details_rejects table clean self root :
  ~ has_required_fields root ->
  exists self',
    parse_details table clean self root = (Ok (), self')
    /\ self_result_queue self' = self_result_queue self
    /\ self_plugin self' = self_plugin self.
Proof.
  intros Hmissing. unfold parse_details, try_audible_id, try_title, try_authors.
  destruct (getitem root "asin") as [id|] eqn:Hid;
    destruct (getitem root "title") as [title|] eqn:Htitle;
    destruct (parse_authors root) as [authors|] eqn:Hauthors; simpl.
  all: repeat match goal with
              | |- context [truthy ?x] => destruct (truthy x) eqn:?
              end; simpl.
  all: try (eexists; split; [reflexivity | by split]).
  exfalso. apply Hmissing. unfold has_required_fields, present. eauto 10.
Qed.

Lemma parse_details_accepts table clean self root :
  has_required_fields root ->
  exists id title authors,
    getitem root "asin" = Ok id /\ truthy id = true
    /\ getitem root "title" = Ok title /\ truthy title = true
    /\ parse_authors root = Ok authors /\ truthy authors = true
    /\ parse_details table clean self root
       = let '(mi, narrators, summary, self1) :=
           fill_fields table self title authors id root in
         match assemble_comments narrators summary with
         | Raise e => (Raise e, self1)
         | Ok commets =>
             (Ok (),
              put (cache_associations self1)
                (clean (set_source_relevance (set_comments mi commets)
                          (self_relevance self1))))
         end.
Proof.
  intros ((id & Hid & Ti) & (title & Htitle & Tt) & (authors & Hauthors & Ta)).
  exists id, title, authors. repeat (split; [assumption|]).
  unfold parse_details, try_audible_id, try_title, try_authors.
  rewrite Hid, Htitle, Hauthors, Tt, Ta, Ti. simpl.
  destruct (fill_fields table self title authors id root) as [[[mi narrators] summary] self1].
  destruct (assemble_comments narrators summary); reflexivity.
Qed.

Lemma has_required_fields_dec root :
  has_required_fields root \/ ~ has_required_fields root.
Proof.
  unfold has_required_fields, present.
  destruct (getitem root "asin") as [id|] eqn:Hid;
    [destruct (truthy id) eqn:Ti|];
    [destruct (getitem root "title") as [title|] eqn:Htitle;
       [destruct (truthy title) eqn:Tt|]
    | |];
    [destruct (parse_authors root) as [authors|] eqn:Ha;
       [destruct (truthy authors) eqn:Ta|]
    | | | |].
  1: left; eauto 10.
  all: right; intros ((?&?&?)&(?&?&?)&(?&?&?)); congruence.
Qed.

Lemma cache_associations_queue self :
  self_result_queue (cache_associations self) = self_result_queue self.
Proof. unfold cache_associations. by repeat case_match. Qed.

(** The worker [parse_details] ends with: its queue is the old one with
    at most one record more. *)
Lemma parse_details_queue table clean self root :
  let self' := snd (parse_details table clean self root) in
  self_result_queue self' = self_result_queue self
  \/ (has_required_fields root
      /\ exists mi, self_result_queue self' = self_result_queue self ++ [mi]).
Proof.
  destruct (has_required_fields_dec root) as [Hreq|Hmissing].
  - destruct (parse_details_accepts table clean self root Hreq)
      as (id & title & authors & _ & _ & _ & _ & _ & _ & ->).
    pose proof (fill_fields_spec table self title authors id root) as Hfill.
    destruct (fill_fields table self title authors id root)
      as [[[mi narrators] summary] self1].
    destruct Hfill as (Hq & _).
    destruct (assemble_comments narrators summary); simpl.
    + right. split; [assumption|]. eexists.
      by rewrite cache_associations_queue, Hq.
    + by left.
  - destruct (parse_details_rejects table clean self root Hmissing)
      as (self' & -> & Hq & _). by left.
Qed.

Lemma parse_authors_present root authors :
  parse_authors root = Ok authors -> truthy authors = true ->
  present root "authors".
Proof.
  unfold parse_authors, present. intros Hparse Htruthy.
  destruct (getitem root "authors") as [node|]; [|discriminate].
  exists node. split; [reflexivity|].
  simpl in Hparse. unfold mbind, result_bind in Hparse.
  destruct node as [| | | |s|l|items]; simpl in *; try discriminate.
  - destruct s; [|reflexivity]. simpl in Hparse. by simplify_eq.
  - destruct l; [|reflexivity]. simpl in Hparse. by simplify_eq.
  - destruct items; [|reflexivity]. simpl in Hparse. by simplify_eq.
Qed.

(** C2: [parse_details] puts a record on the result queue only when the
    identifier, the title and the authors are present and not empty; when
    one of the three is missing or empty, the queue stays as it was. *)
Theorem parse_details_emits_only_with_required_fields
    table clean (self : Worker) (root : json) :
  let self' := snd (parse_details table clean self root) in
  (self_result_queue self' <> self_result_queue self ->
   present root "asin" /\ present root "title" /\ present root "authors")
  /\ (~ (present root "asin" /\ present root "title" /\ present root "authors") ->
      self_result_queue self' = self_result_queue self).
Proof.
  assert (Hreq : has_required_fields root ->
                 present root "asin" /\ present root "title" /\ present root "authors").
  { intros (Hid & Htitle & authors & Ha & Ta).
    eauto using parse_authors_present. }
  destruct (parse_details_queue table clean self root) as [Hsame|[Hall _]]; simpl.
  - split; [intros Hne; by destruct Hne | intros _; exact Hsame].
  - split; [intros _; by apply Hreq | intros Hmissing; destruct Hmissing; by apply Hreq].
Qed.

Lemma assemble_comments_bound narrators summary commets :
  assemble_comments narrators summary = Ok commets ->
  exists n s, narrators = Some n /\ summary = Some s.
Proof.
  unfold assemble_comments.
  destruct narrators as [n|], summary as [s|]; simpl; try discriminate; eauto.
  unfold mbind, result_bind.
  destruct (is_None n); simpl; [discriminate|].
  destruct (join ", " n); discriminate.
Qed.

Lemma cache_associations_plugin self :
  truthy (self_audible_id self) = true ->
  self_plugin (cache_associations self)
  = cached (self_plugin self) (self_isbn self) (self_audible_id self)
           (self_cover_url self).
Proof.
  intros Hid. unfold cache_associations, cached. rewrite Hid.
  destruct (truthy (self_isbn self)), (truthy (self_cover_url self)) eqn:Hc;
    simpl; rewrite ?Hc; reflexivity.
Qed.

(** With the required fields, the record is queued exactly when the
    comments can be put together; otherwise [parse_details] raises and
    nothing is queued or cached. *)
Lemma parse_details_with_required_fields table clean self root id :
  has_required_fields root ->
  getitem root "asin" = Ok id ->
  let cover := match getitem root "image" with
               | Ok v => v
               | Raise _ => self_cover_url self
               end in
  (comments_assemble root
   /\ exists mi self',
        parse_details table clean self root = (Ok (), self')
        /\ self_result_queue self' = self_result_queue self ++ [clean mi]
        /\ self_plugin self' = cached (self_plugin self) (self_isbn self) id cover
        /\ mi_has_cover mi = Some (truthy cover)
        /\ (mi_series mi, mi_series_index mi)
           = match fst (parse_series self root) with
             | Ok (series, Some index) =>
                 if is_None series then (None, None) else (Some series, Some index)
             | _ => (None, None)
             end)
  \/ (~ comments_assemble root
      /\ exists e self',
           parse_details table clean self root = (Raise e, self')
           /\ self_result_queue self' = self_result_queue self
           /\ self_plugin self' = self_plugin self).
Proof.
  intros Hreq Hid cover.
  destruct (parse_details_accepts table clean self root Hreq)
    as (id' & title & authors & Hid' & Ti & _ & _ & _ & _ & ->).
  assert (id' = id) as -> by congruence.
  pose proof (fill_fields_spec table self title authors id root) as Hfill.
  destruct (fill_fields table self title authors id root)
    as [[[mi narrators] summary] self1].
  destruct Hfill as (Hq & Hrel & Hpl & Hisbn & Haid & Hcov & Hn & Hs & Hhas & Hser).
  destruct (assemble_comments narrators summary) as [commets|e] eqn:Hasm.
  - left. split.
    + destruct (assemble_comments_bound _ _ _ Hasm) as (n & s & -> & ->).
      exists n, s, commets.
      destruct (parse_narrators root); [|discriminate].
      destruct (getitem root "summary"); [|discriminate].
      by simplify_eq.
    + eexists _, _. split; [reflexivity|]. simpl.
      rewrite cache_associations_queue, Hq.
      split; [reflexivity|].
      rewrite cache_associations_plugin by (by rewrite Haid).
      rewrite Hpl, Hisbn, Haid, Hcov.
      split; [reflexivity|]. simpl. split; [by rewrite Hhas, Hcov | exact Hser].
  - right. split.
    + intros (n & s & commets & Hpn & Hsum & Hok).
      rewrite Hpn in Hn. rewrite Hsum in Hs. congruence.
    + eauto.
Qed.

Lemma has_image_present root : has_image root = true <-> present root "image".
Proof.
  unfold has_image, present. destruct (getitem root "image") as [v|e].
  - split; [eauto | intros (v' & Hv & Ht); congruence].
  - split; [discriminate | intros (v' & Hv & _); discriminate].
Qed.

(** C9: for a record a fresh worker puts on the queue, the cover flag is
    set, and it is true exactly when the image field of the document is
    present and not empty; the identifier to cover url association is
    handed to the host's cache in that case, and the caches are left as
    they were otherwise. *)
Theorem emitted_record_cover_flag_and_cache
    table clean (url : string) (queue : list Metadata) (log : list log_record)
    (relevance : nat) (plugin : Plugin) (root : json) :
  let self' :=
    snd (parse_details table clean (__init__ url queue log relevance plugin) root) in
  self_result_queue self' <> queue ->
  exists mi id,
    self_result_queue self' = queue ++ [clean mi]
    /\ getitem root "asin" = Ok id /\ truthy id = true
    /\ mi_has_cover mi = Some (has_image root)
    /\ (has_image root = true <-> present root "image")
    /\ self_plugin self'
       = match getitem root "image" with
         | Ok cover =>
             if truthy cover then cache_identifier_to_cover_url plugin id cover
             else plugin
         | Raise _ => plugin
         end.
Proof.
  intros self' Hemitted. subst self'.
  set (self := __init__ url queue log relevance plugin) in *.
  destruct (has_required_fields_dec root) as [Hreq|Hmissing].
  - pose proof Hreq as ((id & Hid & Ti) & _).
    destruct (parse_details_with_required_fields table clean self root id Hreq Hid)
      as [(_ & mi & self' & Heq & Hq & Hpl & Hhas & _)
         |(_ & e & self' & Heq & Hq & _)];
      rewrite Heq in *; simpl in *; [|by destruct Hemitted].
    exists mi, id. repeat (split; [assumption|]).
    unfold has_image. split; [|split; [apply has_image_present|]].
    + rewrite Hhas. by destruct (getitem root "image").
    + rewrite Hpl. unfold cached. simpl.
      by destruct (getitem root "image").
  - destruct (parse_details_rejects table clean self root Hmissing)
      as (self' & Heq & Hq & _).
    rewrite Heq in Hemitted. by destruct Hemitted.
Qed.

Lemma getitem_truthy (node : json) (k : string) (v : json) :
  getitem node k = Ok v -> truthy node = true.
Proof. destruct node as [| | | | | |[|kv items]]; simpl; by try discriminate. Qed.

(** A position whose second piece is missing or no number makes
    [parse_series] raise. *)
Lemma parse_series_raises self root node position :
  getitem root "seriesPrimary" = Ok node ->
  getitem node "position" = Ok (JStr position) ->
  (forall second, split_space position !! 1%nat = Some second ->
                  str_float second = None) ->
  exists e, fst (parse_series self root) = Raise e.
Proof.
  intros Hnode Hpos Hsecond. unfold parse_series.
  rewrite Hnode, (getitem_truthy _ _ _ Hpos). simpl.
  destruct (getitem node "name") as [name|e]; simpl; [|eauto].
  rewrite Hpos. simpl. unfold list_getitem.
  destruct (split_space position !! 1%nat) as [second|] eqn:Hsplit; simpl; [|eauto].
  rewrite (Hsecond _ eq_refl). simpl. eauto.
Qed.

(** The series is read from the second piece of the position. *)
Lemma parse_series_returns self root node name position first second rest index :
  getitem root "seriesPrimary" = Ok node ->
  getitem node "name" = Ok name ->
  getitem node "position" = Ok (JStr position) ->
  split_space position = first :: second :: rest ->
  str_float second = Some index ->
  parse_series self root
  = (Ok (name, Some index),
     log_call Error self
       "parse_series: returning - series_name='%s', series_index='%s'").
Proof.
  intros Hnode Hname Hpos Hsplit Hfloat. unfold parse_series.
  rewrite Hnode, (getitem_truthy _ _ _ Hpos). simpl.
  rewrite Hname. simpl. rewrite Hpos. simpl. rewrite Hsplit. simpl.
  rewrite Hfloat. reflexivity.
Qed.

(** ** Series *)

(** C7, as the code has it: the position is cut at every single space
    ([split(' ')]), and when the second piece is a number for [float],
    [parse_series] returns the series name with the float of that piece. *)
Theorem parse_series_second_piece
    (self : Worker) (root node name : json) (position first second : string)
    (rest : list string) (index : float) :
  getitem root "seriesPrimary" = Ok node ->
  getitem node "name" = Ok name ->
  getitem node "position" = Ok (JStr position) ->
  split_space position = first :: second :: rest ->
  str_float second = Some index ->
  fst (parse_series self root) = Ok (name, Some index).
Proof.
  intros Hnode Hname Hpos Hsplit Hfloat.
  by rewrite (parse_series_returns self root node name position first second rest index).
Qed.

(** C10, as the code has it: for a document with the required fields
    whose series position, cut at every single space, has no second piece
    or one that [float] does not accept, the failure stays inside the
    series block: the record carries neither series name nor series
    index, and it is queued, provided the comments can be put together
    from narrators and summary. *)
Theorem unparsable_series_position_drops_series
    table clean (self : Worker) (root node : json) (position : string) :
  has_required_fields root ->
  comments_assemble root ->
  getitem root "seriesPrimary" = Ok node ->
  getitem node "position" = Ok (JStr position) ->
  (forall second, split_space position !! 1%nat = Some second ->
                  str_float second = None) ->
  exists mi self',
    parse_details table clean self root = (Ok (), self')
    /\ self_result_queue self' = self_result_queue self ++ [clean mi]
    /\ mi_series mi = None
    /\ mi_series_index mi = None.
Proof.
  intros Hreq Hcomments Hnode Hpos Hsecond.
  pose proof Hreq as ((id & Hid & _) & _).
  destruct (parse_details_with_required_fields table clean self root id Hreq Hid)
    as [(_ & mi & self' & Heq & Hq & _ & _ & Hser)|(Hno & _)]; [|by destruct Hno].
  destruct (parse_series_raises self root node position Hnode Hpos Hsecond)
    as (e & Hraise).
  rewrite Hraise in Hser. injection Hser as Hs Hi.
  exists mi, self'. by repeat split.
Qed.

(** ** Isolation of the optional fields *)

(** A failure of the series, the rating, the cover, the tags, the
    publisher, the date or the language never keeps a record with the
    required fields from being queued: once the comments can be put
    together, exactly one record is queued. *)
Lemma other_fields_never_abort table clean self root :
  has_required_fields root ->
  comments_assemble root ->
  exists mi self',
    parse_details table clean self root = (Ok (), self')
    /\ self_result_queue self' = self_result_queue self ++ [clean mi].
Proof.
  intros Hreq Hcomments.
  pose proof Hreq as ((id & Hid & _) & _).
  destruct (parse_details_with_required_fields table clean self root id Hreq Hid)
    as [(_ & mi & self' & Heq & Hq & _)|(Hno & _)]; [eauto | by destruct Hno].
Qed.

(** When the narrators cannot be extracted, the handler leaves the local
    [narrators] unbound, and reading it afterwards raises. *)
Lemma narrators_failure_aborts table clean self root e :
  has_required_fields root ->
  parse_narrators root = Raise e ->
  exists self',
    parse_details table clean self root = (Raise UnboundLocalError, self')
    /\ self_result_queue self' = self_result_queue self.
Proof.
  intros Hreq Hnarr.
  destruct (parse_details_accepts table clean self root Hreq)
    as (id & title & authors & _ & _ & _ & _ & _ & _ & ->).
  pose proof (fill_fields_spec table self title authors id root) as Hfill.
  destruct (fill_fields table self title authors id root)
    as [[[mi narrators] summary] self1].
  destruct Hfill as (Hq & _ & _ & _ & _ & _ & Hn & _).
  rewrite Hnarr in Hn. subst narrators. simpl. eauto.
Qed.

(** The same for the summary, when the narrators were fine. *)
Lemma summary_failure_aborts table clean self root e :
  has_required_fields root ->
  getitem root "summary" = Raise e ->
  exists e' self',
    parse_details table clean self root = (Raise e', self')
    /\ self_result_queue self' = self_result_queue self.
Proof.
  intros Hreq Hsum.
  pose proof Hreq as ((id & Hid & _) & _).
  destruct (parse_details_with_required_fields table clean self root id Hreq Hid)
    as [((n & s & c & _ & Hs & _) & _)|(_ & e' & self' & Heq & Hq & _)];
    [congruence | eauto].
Qed.

(** C1 fails on the code: a document with identifier, title and authors
    but without narrators makes [parse_details] raise
    [UnboundLocalError]; no record reaches the queue, and [run] only logs
    the exception. *)
Theorem missing_narrators_aborts_emission table clean :
  let root :=
    JObj [("asin", JStr "B002V19RO6"); ("title", JStr "1984");
          ("authors", JArr [JObj [("name", JStr "George Orwell")]]);
          ("summary", JStr "A novel.")] in
  let self := __init__ "https://api.audnex.us/books/B002V19RO6" [] [] 0
                (mk_Plugin [] []) in
  fst (parse_details table clean self root) = Raise UnboundLocalError
  /\ self_result_queue (snd (parse_details table clean self root)) = []
  /\ self_result_queue (run table clean self (Body (Ok root))) = [].
Proof. repeat split; vm_compute; reflexivity. Qed.

End Properties.

(** ** Cover download *)

(** Whenever the cache has no cover for the identifiers, the call of
    [identify] passes the keyword [hiddenauthors], which [identify] does
    not declare: the call raises [TypeError] before the body runs, and
    nothing in [download_cover] handles it. *)
Lemma download_cover_cache_miss_raises
    identify_body sort_results open_novisit_read
    (st : Audible.State) (abort : bool) (title : option string)
    (authors : option (list string)) (identifiers : gmap string string) :
  Audible.get_cached_cover_url (Audible.st_plugin st) identifiers = None ->
  exists st',
    Audible.download_cover identify_body sort_results open_novisit_read
      st abort title authors identifiers
    = (Raise TypeError, st')
    /\ Audible.st_result_queue st' = Audible.st_result_queue st.
Proof.
  intros Hmiss. unfold Audible.download_cover. rewrite Hmiss.
  unfold Audible.identify.
  assert (Audible.bind_call Audible.identify_params 3 3
            ["title"; "authors"; "hiddenauthors"; "identifiers"]
          = Raise TypeError) as -> by (vm_compute; reflexivity).
  eexists. split; reflexivity.
Qed.

(** C3 fails on the code: with an empty cache, [download_cover] for the
    title 1984 raises [TypeError] to its caller, whatever [identify], the
    ranking and the browser would do, and no cover is queued. *)
Theorem download_cover_without_cached_cover_raises
    identify_body sort_results open_novisit_read :
  let st := Audible.mk_State (mk_Plugin [] []) [] [] in
  let outcome :=
    Audible.download_cover identify_body sort_results open_novisit_read
      st false (Some "1984") (Some ["George Orwell"]) ∅ in
  fst outcome = Raise TypeError
  /\ Audible.st_result_queue (snd outcome) = [].
Proof.
  intros st outcome.
  destruct (download_cover_cache_miss_raises identify_body sort_results
              open_novisit_read st false (Some "1984") (Some ["George Orwell"]) ∅)
    as (st' & Heq & Hq).
  - unfold Audible.get_cached_cover_url. by rewrite lookup_empty.
  - subst outcome. rewrite Heq. simpl. by rewrite Hq.
Qed.

(** With a cached cover the download goes through, and a failure of the
    request is logged and not raised. *)
Lemma download_cover_cached_never_raises
    identify_body sort_results open_novisit_read
    (st : Audible.State) (abort : bool) (title : option string)
    (authors : option (list string)) (identifiers : gmap string string)
    (cover : json) :
  Audible.get_cached_cover_url (Audible.st_plugin st) identifiers = Some cover ->
  fst (Audible.download_cover identify_body sort_results open_novisit_read
         st abort title authors identifiers) = Ok ().
Proof.
  intros Hhit. unfold Audible.download_cover, Audible.fetch_cover. rewrite Hhit.
  destruct abort; [reflexivity|]. by destruct (open_novisit_read cover).
Qed.

(** * Further properties *)

(** ** The query builder and the book url *)

Lemma truthy_str_absent (v : option string) :
  Audible.truthy_str v = false <-> absent v.
Proof.
  unfold absent. destruct v as [[|c s]|]; simpl; split; auto; try discriminate.
  intros [H|H]; discriminate.
Qed.

(** X1: [get_book_url] gives the name [audible], the identifier and the
    url [https://www.audible.com/pd/<id>?ipRedirectOverride=true] exactly
    for a non-empty audible identifier, and [None] otherwise. *)
Theorem get_book_url_spec (identifiers : gmap string string) :
  (forall id, identifiers !! "audible" = Some id -> id <> "" ->
     Audible.get_book_url identifiers
     = Some ("audible", id,
             "https://www.audible.com/pd/" +:+ id +:+ "?ipRedirectOverride=true"))
  /\ (absent (identifiers !! "audible") -> Audible.get_book_url identifiers = None)
  /\ (forall name id url, Audible.get_book_url identifiers = Some (name, id, url) ->
        identifiers !! "audible" = Some id /\ id <> "").
Proof.
  unfold Audible.get_book_url. change Audible.ID_NAME with "audible".
  destruct (identifiers !! "audible") as [[|c id]|] eqn:Hid; simpl.
  - split; [|split]; [intros id [= <-] Hne; by destruct Hne | done | discriminate].
  - split; [|split].
    + intros id' [= <-] _. reflexivity.
    + intros [H|H]; discriminate.
    + intros name id' url [= <- <- <-]. split; [reflexivity | discriminate].
  - split; [|split]; [discriminate | done | discriminate].
Qed.

Lemma get_book_url_spec_witness :
  Audible.get_book_url {[ "audible" := "B002V19RO6" ]}
  = Some ("audible", "B002V19RO6",
          "https://www.audible.com/pd/B002V19RO6?ipRedirectOverride=true").
Proof.
  apply (proj1 (get_book_url_spec {[ "audible" := "B002V19RO6" ]}) "B002V19RO6");
    [reflexivity | discriminate].
Defined.

Lemma create_query_None
    (title : option string) (authors : option (list string))
    (identifiers : gmap string string) (asin : option string) :
  Audible.create_query title authors identifiers asin = None
  <-> absent (identifiers !! "audible") /\ absent asin /\ absent title
      /\ (authors = None \/ authors = Some []).
Proof.
  unfold Audible.create_query. change Audible.ID_NAME with "audible".
  rewrite <- !truthy_str_absent.
  destruct asin as [[|c0 a0]|], (identifiers !! "audible") as [[|c1 i1]|],
    title as [[|c2 t2]|], authors as [[|a l]|];
    simpl; split; try discriminate; try tauto; try (intros (?&?&?&[?|?]); discriminate).
Qed.

(** X2: the builder returns [None] only when there is nothing to search
    for: no identifier, no asin, no title and no author. *)
Theorem create_query_none_iff
    (title : option string) (authors : option (list string))
    (identifiers : gmap string string) (asin : option string) :
  Audible.create_query title authors identifiers asin = None
  <-> absent (identifiers !! "audible") /\ absent asin /\ absent title
      /\ (authors = None \/ authors = Some []).
Proof. apply create_query_None. Qed.

Lemma create_query_forms
    (title : option string) (authors : option (list string))
    (identifiers : gmap string string) (asin : option string) (q : string) :
  Audible.create_query title authors identifiers asin = Some q ->
  (exists id, id <> ""
      /\ (asin = Some id \/ (absent asin /\ identifiers !! "audible" = Some id))
      /\ q = "https://api.audnex.us/books/" +:+ id
      /\ is_search_form q = false)
  \/ (absent asin /\ absent (identifiers !! "audible") /\ is_search_form q = true).
Proof.
  unfold Audible.create_query. change Audible.ID_NAME with "audible".
  rewrite <- !truthy_str_absent.
  destruct asin as [[|c0 a0]|] eqn:Hasin; simpl.
  2: { intros [= <-]. left. exists (String c0 a0). repeat split; auto. }
  all: destruct (identifiers !! "audible") as [[|c1 i1]|] eqn:Hid; simpl.
  all: try (intros [= <-]; left; exists (String c1 i1); repeat split;
            [discriminate | right; repeat split; unfold absent; auto]).
  all: destruct title as [[|c2 t2]|], authors as [[|a l]|]; simpl;
    try discriminate; intros [= <-]; right; repeat split.
  all: unfold absent; auto.
Qed.

(** X3: a query the builder returns is the detail url of the identifier
    in force (the asin, or else the entry of the map), or it is a catalog
    search url, and never both. *)
Theorem create_query_two_forms
    (title : option string) (authors : option (list string))
    (identifiers : gmap string string) (asin : option string) (q : string) :
  Audible.create_query title authors identifiers asin = Some q ->
  (exists id, id <> ""
      /\ (asin = Some id \/ (absent asin /\ identifiers !! "audible" = Some id))
      /\ q = "https://api.audnex.us/books/" +:+ id
      /\ is_search_form q = false)
  \/ (absent asin /\ absent (identifiers !! "audible") /\ is_search_form q = true).
Proof. apply create_query_forms. Qed.

Lemma create_query_two_forms_witness :
  (exists id, id <> ""
      /\ (Some "B002V19RO6" = Some id
          \/ (absent (Some "B002V19RO6") /\ (∅ : gmap string string) !! "audible" = Some id))
      /\ "https://api.audnex.us/books/B002V19RO6" = "https://api.audnex.us/books/" +:+ id
      /\ is_search_form "https://api.audnex.us/books/B002V19RO6" = false)
  \/ (absent (Some "B002V19RO6") /\ absent ((∅ : gmap string string) !! "audible")
      /\ is_search_form "https://api.audnex.us/books/B002V19RO6" = true).
Proof.
  apply (create_query_two_forms (Some "1984") None ∅ (Some "B002V19RO6")).
  reflexivity.
Defined.

(** ** Loops that may raise *)

Lemma for_each_Ok {A B} (f : A -> result B) (l : list A) (ys : list B) :
  for_each f l = Ok ys <-> Forall2 (fun x y => f x = Ok y) l ys.
Proof.
  revert ys. induction l as [|x l IH]; intros ys; simpl.
  - split; [intros [= <-]; constructor | by inversion 1].
  - destruct (f x) as [y|e] eqn:Hx.
    + destruct (for_each f l) as [ys'|e] eqn:Hl.
      * split.
        -- intros [= <-]. constructor; [done | by apply IH].
        -- inversion 1 as [|? y' ? ys'' Hy Hrest]; subst.
           apply IH in Hrest. congruence.
      * split; [discriminate|].
        inversion 1 as [|? y' ? ys'' Hy Hrest]; subst.
        apply IH in Hrest. discriminate.
    + split; [discriminate|]. inversion 1; congruence.
Qed.

Lemma for_each_Raise {A B} (f : A -> result B) (l : list A) (x : A) (e : exn) :
  x ∈ l -> f x = Raise e -> exists e', for_each f l = Raise e'.
Proof.
  intros Hin Hx. induction l as [|x' l IH]; [by apply not_elem_of_nil in Hin|].
  simpl. apply elem_of_cons in Hin as [->|Hin].
  - rewrite Hx. eauto.
  - destruct (f x'); [|eauto]. destruct (IH Hin) as [e' ->]. eauto.
Qed.

(** ** The candidates of identify *)

Lemma create_query_usable title authors identifiers q (asin : option string) :
  Audible.create_query title authors identifiers None = Some q ->
  exists q', Audible.create_query title authors identifiers asin = Some q'.
Proof.
  intros Hq.
  destruct (Audible.create_query title authors identifiers asin) as [q'|] eqn:Hasin;
    [eauto|].
  apply create_query_None in Hasin as (Hid & _ & Ht & Ha).
  assert (Audible.create_query title authors identifiers None = None) as Hnone.
  { apply create_query_None. repeat split; auto. by left. }
  congruence.
Qed.

Lemma create_query_asin_given title authors identifiers (id : string) :
  id <> "" ->
  Audible.create_query title authors identifiers (Some id)
  = Some ("https://api.audnex.us/books/" +:+ id).
Proof. intros Hne. destruct id as [|c id]; [done | reflexivity]. Qed.

(** X4: when the identifiers hold a non-empty audible id, [identify]
    makes no search: whatever the catalog would answer, the one candidate
    is the detail url of that id. *)
Theorem identify_known_identifier
    (log : list log_record) (title : option string) (authors : option (list string))
    (identifiers : gmap string string) (search : Audible.searched) (id : string) :
  identifiers !! "audible" = Some id ->
  id <> "" ->
  fst (Audible.identify_matches log title authors identifiers search)
  = Audible.Matches [Some ("https://api.audnex.us/books/" +:+ id)].
Proof.
  intros Hid Hne. unfold Audible.identify_matches.
  change Audible.ID_NAME with "audible". rewrite Hid.
  destruct id as [|c id]; [done|]. simpl.
  unfold Audible.create_query. change Audible.ID_NAME with "audible".
  rewrite Hid. reflexivity.
Qed.

Lemma identify_known_identifier_witness :
  fst (Audible.identify_matches [] (Some "1984") (Some ["George Orwell"])
         {[ "audible" := "B002V19RO6" ]} Audible.NotFound)
  = Audible.Matches [Some "https://api.audnex.us/books/B002V19RO6"].
Proof.
  apply (identify_known_identifier [] (Some "1984") (Some ["George Orwell"])
           {[ "audible" := "B002V19RO6" ]} Audible.NotFound "B002V19RO6");
    [reflexivity | discriminate].
Defined.

(** X5: without an identifier, a search result whose products all carry
    a non-empty asin gives one candidate per product, in the order of the
    products: the detail url of its asin. *)
Theorem identify_one_candidate_per_product
    (log : list log_record) (title : option string) (authors : option (list string))
    (identifiers : gmap string string) (raw : json) (products : list json)
    (asins : list string) (query : string) :
  absent (identifiers !! "audible") ->
  Audible.create_query title authors identifiers None = Some query ->
  getitem raw "products" = Ok (JArr products) ->
  Forall2 (fun product asin => getitem product "asin" = Ok (JStr asin) /\ asin <> "")
          products asins ->
  fst (Audible.identify_matches log title authors identifiers
         (Audible.Response (Ok raw)))
  = Audible.Matches ((fun asin => Some ("https://api.audnex.us/books/" +:+ asin)) <$> asins).
Proof.
  intros Hid Hquery Hproducts Hasins. unfold Audible.identify_matches.
  change Audible.ID_NAME with "audible".
  rewrite (proj2 (truthy_str_absent _) Hid), Hquery.
  rewrite (getitem_truthy _ _ _ Hproducts), Hproducts. simpl.
  set (body := fun product : json => _).
  assert (for_each body products
          = Ok ((fun asin => Some ("https://api.audnex.us/books/" +:+ asin)) <$> asins))
    as ->; [|reflexivity].
  apply for_each_Ok. clear Hproducts.
  induction Hasins as [|product asin products asins [Hasin Hne] _ IH]; simpl;
    constructor; [|exact IH].
  subst body. simpl. rewrite Hasin. simpl. f_equal.
  by apply create_query_asin_given.
Qed.

Lemma identify_one_candidate_per_product_witness :
  fst (Audible.identify_matches [] (Some "1984") (Some ["George Orwell"]) ∅
         (Audible.Response
            (Ok (JObj [("products", JArr [JObj [("asin", JStr "B002V19RO6")]])]))))
  = Audible.Matches
      ((fun asin => Some ("https://api.audnex.us/books/" +:+ asin)) <$> ["B002V19RO6"]).
Proof.
  apply (identify_one_candidate_per_product [] (Some "1984") (Some ["George Orwell"])
           ∅ _ [JObj [("asin", JStr "B002V19RO6")]] ["B002V19RO6"]
           "https://api.audible.com/1.0/catalog/products?num_results=25&products_sort_by=Relevance&title=1984&author=George Orwell").
  - left. reflexivity.
  - reflexivity.
  - reflexivity.
  - constructor; [split; [reflexivity | discriminate] | constructor].
Defined.

(** X6: one product without an asin discards the whole search result:
    [identify] returns early and looks up no candidate, the well-formed
    products included. *)
Theorem identify_malformed_product_discards_all
    (log : list log_record) (title : option string) (authors : option (list string))
    (identifiers : gmap string string) (raw : json) (products : list json)
    (product : json) (e : exn) :
  absent (identifiers !! "audible") ->
  getitem raw "products" = Ok (JArr products) ->
  product ∈ products ->
  getitem product "asin" = Raise e ->
  exists value,
    fst (Audible.identify_matches log title authors identifiers
           (Audible.Response (Ok raw)))
    = Audible.Return value.
Proof.
  intros Hid Hproducts Hin Hasin. unfold Audible.identify_matches.
  change Audible.ID_NAME with "audible".
  rewrite (proj2 (truthy_str_absent _) Hid).
  destruct (Audible.create_query title authors identifiers None); [|eauto].
  rewrite (getitem_truthy _ _ _ Hproducts), Hproducts. simpl.
  set (body := fun product : json => _).
  destruct (for_each_Raise body products product e Hin) as [e' ->]; [|eauto].
  subst body. simpl. by rewrite Hasin.
Qed.

Lemma identify_malformed_product_discards_all_witness :
  exists value,
    fst (Audible.identify_matches [] (Some "1984") None ∅
           (Audible.Response
              (Ok (JObj [("products",
                          JArr [JObj [("asin", JStr "B002V19RO6")];
                                JObj [("title", JStr "1984")]])]))))
    = Audible.Return value.
Proof.
  apply (identify_malformed_product_discards_all [] (Some "1984") None ∅ _
           [JObj [("asin", JStr "B002V19RO6")]; JObj [("title", JStr "1984")]]
           (JObj [("title", JStr "1984")]) KeyError).
  - left. reflexivity.
  - reflexivity.
  - apply list_elem_of_further, list_elem_of_here.
  - reflexivity.
Defined.

(** Every value of a search result as an asin argument. *)
Lemma create_query_asin_usable title authors identifiers q (asin : json) m :
  Audible.create_query title authors identifiers None = Some q ->
  Audible.create_query_asin title authors identifiers asin = Ok m ->
  exists q', m = Some q'
    /\ Audible.create_query title authors identifiers
         (match asin with JStr s => Some s | _ => None end) = Some q'.
Proof.
  intros Hq. unfold Audible.create_query_asin.
  destruct asin as [|b|z|f|s|l|items]; simpl;
    repeat case_match; try discriminate; intros [= <-].
  all: try (exists q; split; [done|]; done).
  destruct (create_query_usable title authors identifiers q (Some s) Hq) as [q' Hq'].
  exists q'. by rewrite Hq'.
Qed.

Lemma identify_matches_are_urls
    (log : list log_record) (title : option string) (authors : option (list string))
    (identifiers : gmap string string) (search : Audible.searched)
    (matches : list (option string)) :
  fst (Audible.identify_matches log title authors identifiers search)
  = Audible.Matches matches ->
  Forall (fun m => exists q,
            m = Some q
            /\ (is_search_form q = true
                \/ exists id, id <> "" /\ q = "https://api.audnex.us/books/" +:+ id))
         matches.
Proof.
  unfold Audible.identify_matches. change Audible.ID_NAME with "audible".
  destruct (Audible.truthy_str (identifiers !! "audible")) eqn:Hid.
  - simpl. intros [= <-]. constructor; [|constructor].
    destruct (identifiers !! "audible") as [[|c id]|] eqn:Hmap; try discriminate.
    exists ("https://api.audnex.us/books/" +:+ String c id). split.
    + unfold Audible.create_query. change Audible.ID_NAME with "audible".
      by rewrite Hmap.
    + right. exists (String c id). split; [discriminate | reflexivity].
  - destruct (Audible.create_query title authors identifiers None) as [query|] eqn:Hq;
      [|discriminate].
    destruct search as [| |[raw|e]]; simpl; try discriminate.
    + intros [= <-]. constructor.
    + destruct (truthy raw); simpl; [|discriminate].
      destruct (getitem raw "products") as [products|]; simpl; [|discriminate].
      destruct (iter products) as [items|]; simpl; [|discriminate].
      set (body := fun product : json => _).
      destruct (for_each body items) as [found|] eqn:Hfound; [|discriminate].
      intros [= <-]. apply for_each_Ok in Hfound.
      induction Hfound as [|product m items found Hm _ IH]; constructor; [|exact IH].
      subst body. simpl in Hm.
      destruct (getitem product "asin") as [asin|]; simpl in Hm; [|discriminate].
      destruct (create_query_asin_usable _ _ _ _ _ _ Hq Hm) as (q' & -> & Hq').
      exists q'. split; [reflexivity|].
      destruct (create_query_forms _ _ _ _ _ Hq')
        as [(id & Hne & _ & -> & _)|(_ & _ & Hform)]; eauto.
Qed.

(** X7: the candidates [identify] goes on with are urls, never [None]:
    each one is a detail url of a non-empty identifier or a catalog search
    url. *)
Theorem identify_candidates_are_urls
    (log : list log_record) (title : option string) (authors : option (list string))
    (identifiers : gmap string string) (search : Audible.searched)
    (matches : list (option string)) :
  fst (Audible.identify_matches log title authors identifiers search)
  = Audible.Matches matches ->
  Forall (fun m => exists q,
            m = Some q
            /\ (is_search_form q = true
                \/ exists id, id <> "" /\ q = "https://api.audnex.us/books/" +:+ id))
         matches.
Proof. apply identify_matches_are_urls. Qed.

(** A product with an empty asin: its candidate is the search url. *)
Lemma identify_candidates_are_urls_witness :
  Forall (fun m => exists q,
            m = Some q
            /\ (is_search_form q = true
                \/ exists id, id <> "" /\ q = "https://api.audnex.us/books/" +:+ id))
         [Some "https://api.audnex.us/books/B002V19RO6";
          Some "https://api.audible.com/1.0/catalog/products?num_results=25&products_sort_by=Relevance&title=1984"].
Proof.
  apply (identify_candidates_are_urls [] (Some "1984") None ∅
           (Audible.Response
              (Ok (JObj [("products",
                          JArr [JObj [("asin", JStr "B002V19RO6")];
                                JObj [("asin", JStr "")]])])))).
  reflexivity.
Defined.

Section FurtherProperties.

(** As above: whatever the builtins compute. *)
Context {py : Builtins}.

(** ** The record [parse_details] builds *)

Lemma try_series_fst mi self root :
  fst (try_series mi self root)
  = match fst (parse_series self root) with
    | Ok (series, Some index) =>
        if is_None series then mi else set_series mi series index
    | _ => mi
    end.
Proof.
  unfold try_series.
  destruct (parse_series self root) as [[[series [index|]]|e] self1]; simpl;
    by repeat case_match.
Qed.

Lemma try_rating_fst mi self root :
  fst (try_rating mi self root)
  = match rating ← getitem root "rating"; to_float rating with
    | Ok rating => set_rating mi rating
    | Raise _ => mi
    end.
Proof. unfold try_rating. by case_match. Qed.

Lemma try_cover_fst mi self root :
  fst (try_cover mi self root)
  = set_has_cover mi (truthy (match getitem root "image" with
                              | Ok v => v
                              | Raise _ => self_cover_url self
                              end)).
Proof. unfold try_cover. by destruct (getitem root "image"). Qed.

Lemma try_tags_fst table mi self root :
  fst (try_tags table mi self root)
  = match parse_tags table root with
    | Ok (Some tags) => set_tags mi tags
    | _ => mi
    end.
Proof. unfold try_tags. by repeat case_match. Qed.

Lemma try_publisher_fst mi self root :
  fst (try_publisher mi self root)
  = match getitem root "publisherName" with
    | Ok v => set_publisher mi v
    | Raise _ => mi
    end.
Proof. unfold try_publisher. by case_match. Qed.

Lemma try_pubdate_fst mi self root :
  fst (try_pubdate mi self root)
  = match date_text ← getitem root "releaseDate"; _convert_date_text date_text with
    | Ok pubdate => set_pubdate mi pubdate
    | Raise _ => mi
    end.
Proof. unfold try_pubdate. by case_match. Qed.

Lemma try_language_fst mi self root :
  fst (try_language mi self root)
  = match language ← getitem root "language"; method_capitalize language with
    | Ok language => set_language mi language
    | Raise _ => mi
    end.
Proof. unfold try_language. by case_match. Qed.

(** The record [fill_fields] leaves: every attribute comes from its own
    field of the document. *)
Lemma fill_fields_record table self title authors id root :
  fst (fst (fst (fill_fields table self title authors id root)))
  = mk_Metadata title authors [("audible", id)]
      (match fst (parse_series self root) with
       | Ok (series, Some _) => if is_None series then None else Some series
       | _ => None
       end)
      (match fst (parse_series self root) with
       | Ok (series, Some index) => if is_None series then None else Some index
       | _ => None
       end)
      (match rating ← getitem root "rating"; to_float rating with
       | Ok rating => Some rating
       | Raise _ => None
       end)
      (Some (truthy (match getitem root "image" with
                     | Ok v => v
                     | Raise _ => self_cover_url self
                     end)))
      (match parse_tags table root with
       | Ok (Some tags) => Some tags
       | _ => None
       end)
      (match getitem root "publisherName" with
       | Ok v => Some v
       | Raise _ => None
       end)
      (match date_text ← getitem root "releaseDate"; _convert_date_text date_text with
       | Ok pubdate => Some pubdate
       | Raise _ => None
       end)
      (match language ← getitem root "language"; method_capitalize language with
       | Ok language => Some language
       | Raise _ => None
       end)
      None None.
Proof.
  unfold fill_fields.
  set (self0 := set_audible_id _ id).
  set (mi0 := set_identifier _ _ _).
  pose proof (try_narrators_step self0 authors root) as [Hn1 _].
  destruct (try_narrators self0 authors root) as [[narrators authors'] self1].
  pose proof (try_series_step mi0 self1 root) as (Hs1 & _).
  pose proof (try_series_fst mi0 self1 root) as Hmi2.
  destruct (try_series mi0 self1 root) as [mi2 self2].
  pose proof (try_rating_step mi2 self2 root) as [Hr1 _].
  pose proof (try_rating_fst mi2 self2 root) as Hmi3.
  destruct (try_rating mi2 self2 root) as [mi3 self3].
  pose proof (try_summary_step self3 root) as [Hy1 _].
  destruct (try_summary self3 root) as [summary self4].
  pose proof (try_cover_fst mi3 self4 root) as Hmi5.
  destruct (try_cover mi3 self4 root) as [mi5 self5].
  pose proof (try_tags_fst table mi5 self5 root) as Hmi6.
  destruct (try_tags table mi5 self5 root) as [mi6 self6].
  pose proof (try_publisher_fst mi6 self6 root) as Hmi7.
  destruct (try_publisher mi6 self6 root) as [mi7 self7].
  pose proof (try_pubdate_fst mi7 self7 root) as Hmi8.
  destruct (try_pubdate mi7 self7 root) as [mi8 self8].
  pose proof (try_language_fst mi8 self8 root) as Hmi9.
  destruct (try_language mi8 self8 root) as [mi9 self9].
  simpl in *.
  assert (Hearly : same_but_log self0 self4).
  { repeat (eapply same_but_log_trans; [eassumption|]). apply same_but_log_refl. }
  destruct Hearly as (_ & _ & _ & _ & Hcov & _).
  change (self_cover_url self0) with (self_cover_url self) in Hcov.
  rewrite (parse_series_fst self self1 root).
  subst mi9 mi8 mi7 mi6 mi5 mi3 mi2. rewrite Hcov. subst mi0.
  destruct (fst (parse_series self1 root)) as [[series [index|]]|e];
    [destruct (is_None series)| |];
    destruct (rating ← getitem root "rating"; to_float rating);
    destruct (parse_tags table root) as [[tags|]|];
    destruct (getitem root "publisherName");
    destruct (date_text ← getitem root "releaseDate"; _convert_date_text date_text);
    destruct (language ← getitem root "language"; method_capitalize language);
    reflexivity.
Qed.

Lemma parse_details_emitted table clean self root id title authors
    narrators summary commets :
  getitem root "asin" = Ok id -> truthy id = true ->
  getitem root "title" = Ok title -> truthy title = true ->
  parse_authors root = Ok authors -> truthy authors = true ->
  parse_narrators root = Ok narrators ->
  getitem root "summary" = Ok summary ->
  assemble_comments (Some narrators) (Some summary) = Ok commets ->
  exists self',
    parse_details table clean self root = (Ok (), self')
    /\ self_result_queue self'
       = self_result_queue self
         ++ [clean (set_source_relevance
                      (set_comments
                         (fst (fst (fst (fill_fields table self title authors id root))))
                         commets)
                      (self_relevance self))]
    /\ self_audible_id self' = id.
Proof.
  intros Hid Ti Htitle Tt Hauthors Ta Hnarr Hsum Hasm.
  unfold parse_details, try_audible_id, try_title, try_authors.
  rewrite Hid, Htitle, Hauthors, Tt, Ta, Ti. simpl.
  pose proof (fill_fields_spec table self title authors id root) as Hfill.
  destruct (fill_fields table self title authors id root)
    as [[[mi narrators'] summary'] self1].
  destruct Hfill as (Hq & Hrel & _ & _ & Haid & _ & Hn & Hs & _).
  rewrite Hnarr in Hn. rewrite Hsum in Hs. subst narrators' summary'.
  rewrite Hasm. eexists. split; [reflexivity|]. simpl.
  rewrite cache_associations_queue, Hq, Hrel. split; [reflexivity|].
  unfold cache_associations. by repeat case_match.
Qed.

(** X8: a record that is queued carries the title, the author names and
    the identifier of the document, and the relevance of its worker. *)
Theorem emitted_record_identity
    table clean (self : Worker) (root id title authors : json) :
  getitem root "asin" = Ok id -> truthy id = true ->
  getitem root "title" = Ok title -> truthy title = true ->
  parse_authors root = Ok authors -> truthy authors = true ->
  comments_assemble root ->
  exists mi self',
    parse_details table clean self root = (Ok (), self')
    /\ self_result_queue self' = self_result_queue self ++ [clean mi]
    /\ mi_title mi = title
    /\ mi_authors mi = authors
    /\ mi_identifiers mi = [("audible", id)]
    /\ mi_source_relevance mi = Some (self_relevance self)
    /\ self_audible_id self' = id.
Proof.
  intros Hid Ti Htitle Tt Hauthors Ta (narrators & summary & commets & Hn & Hs & Hasm).
  destruct (parse_details_emitted table clean self root id title authors
              narrators summary commets) as (self' & Heq & Hq & Haid); try assumption.
  eexists _, self'. split; [exact Heq|]. split; [exact Hq|].
  rewrite fill_fields_record. by repeat split.
Qed.

(** X9: in a queued record the rating, the publisher, the publication
    date, the language and the tags each come from their own field of the
    document: the attribute is set when that field extracts, and left
    alone when it does not, whatever the other fields are. *)
Theorem emitted_record_attributes
    table clean (self : Worker) (root : json) :
  has_required_fields root ->
  comments_assemble root ->
  exists mi self',
    parse_details table clean self root = (Ok (), self')
    /\ self_result_queue self' = self_result_queue self ++ [clean mi]
    /\ mi_rating mi
       = match rating ← getitem root "rating"; to_float rating with
         | Ok rating => Some rating
         | Raise _ => None
         end
    /\ mi_publisher mi
       = match getitem root "publisherName" with
         | Ok publisher => Some publisher
         | Raise _ => None
         end
    /\ mi_pubdate mi
       = match date_text ← getitem root "releaseDate"; _convert_date_text date_text with
         | Ok pubdate => Some pubdate
         | Raise _ => None
         end
    /\ mi_language mi
       = match language ← getitem root "language"; method_capitalize language with
         | Ok language => Some language
         | Raise _ => None
         end
    /\ mi_tags mi
       = match parse_tags table root with
         | Ok (Some tags) => Some tags
         | _ => None
         end.
Proof.
  intros ((id & Hid & Ti) & (title & Htitle & Tt) & (authors & Hauthors & Ta))
         (narrators & summary & commets & Hn & Hs & Hasm).
  destruct (parse_details_emitted table clean self root id title authors
              narrators summary commets) as (self' & Heq & Hq & Haid); try assumption.
  eexists _, self'. split; [exact Heq|]. split; [exact Hq|].
  rewrite fill_fields_record. by repeat split.
Qed.

(** ** Authors and narrators *)

Lemma names_of_list (root : json) (field : string) (nodes : list json) (names : json) :
  getitem root field = Ok (JArr nodes) ->
  (node ← getitem root field; items ← iter node;
   found ← for_each (fun person => getitem person "name") items; Ok (JArr found))
  = Ok names
  <-> exists l, names = JArr l
        /\ Forall2 (fun node name => getitem node "name" = Ok name) nodes l.
Proof.
  intros Hfield. rewrite Hfield. simpl. split.
  - destruct (for_each _ nodes) as [found|] eqn:Hfound; simpl; [|discriminate].
    intros [= <-]. exists found. split; [reflexivity | by apply for_each_Ok].
  - intros (l & -> & Hall). apply for_each_Ok in Hall. by rewrite Hall.
Qed.

(** X10: for a document whose authors (narrators) are a list,
    [parse_authors] ([parse_narrators]) returns the names of all its
    entries in the order of the list, and raises as soon as one entry has
    no name: it never returns a part of the names. *)
Theorem parse_authors_all_names_in_order
    (root : json) (field_nodes : list json) (names : json) :
  (getitem root "authors" = Ok (JArr field_nodes) ->
   (parse_authors root = Ok names
    <-> exists l, names = JArr l
          /\ Forall2 (fun node name => getitem node "name" = Ok name) field_nodes l))
  /\ (getitem root "narrators" = Ok (JArr field_nodes) ->
      (parse_narrators root = Ok names
       <-> exists l, names = JArr l
             /\ Forall2 (fun node name => getitem node "name" = Ok name) field_nodes l)).
Proof. split; intros Hfield; by apply names_of_list. Qed.

(** ** Comments *)

Lemma join_list_strings (sep : string) (names : list string) :
  join_list sep (JStr <$> names) = Ok (String.concat sep names).
Proof.
  induction names as [|name [|name' names] IH]; [reflexivity | reflexivity |].
  change (JStr <$> name :: name' :: names)
    with (JStr name :: (JStr <$> name' :: names)).
  change (join_list sep (JStr name :: (JStr <$> name' :: names)))
    with (match join_list sep (JStr <$> name' :: names) with
          | Ok t => Ok (name +:+ sep +:+ t)
          | Raise e => Raise e
          end).
  by rewrite IH.
Qed.

Lemma assemble_comments_strings (names : list string) (summary : json) :
  summary = JNull \/ (exists s, summary = JStr s) ->
  assemble_comments (Some (JArr (JStr <$> names))) (Some summary)
  = Ok (narrators_paragraph names +:+ summary_text summary).
Proof.
  intros Hsummary.
  assert (join ", " (JArr (JStr <$> names)) = Ok (String.concat ", " names)) as Hjoin
    by apply join_list_strings.
  unfold assemble_comments. cbn [local mbind result_bind is_None negb].
  rewrite Hjoin.
  destruct Hsummary as [->|[s ->]]; cbn [mbind result_bind is_None negb summary_text].
  - rewrite (append_empty_r (narrators_paragraph names)). reflexivity.
  - reflexivity.
Qed.

Lemma names_Forall2_strings (nodes : list json) (names : list string) :
  Forall2 (fun node name => getitem node "name" = Ok (JStr name)) nodes names ->
  Forall2 (fun node name => getitem node "name" = Ok name) nodes (JStr <$> names).
Proof. induction 1; simpl; by constructor. Qed.

(** X11: the comments of a queued record are the paragraph
    [<p id="narrators">Narrators: n1, n2, ...</p>] with the narrators'
    names, followed by the summary, or by nothing when the summary is
    [null]. *)
Theorem emitted_record_comments
    table clean (self : Worker) (root : json) (nodes : list json)
    (names : list string) (summary : json) :
  has_required_fields root ->
  getitem root "narrators" = Ok (JArr nodes) ->
  Forall2 (fun node name => getitem node "name" = Ok (JStr name)) nodes names ->
  getitem root "summary" = Ok summary ->
  summary = JNull \/ (exists s, summary = JStr s) ->
  exists mi self',
    parse_details table clean self root = (Ok (), self')
    /\ self_result_queue self' = self_result_queue self ++ [clean mi]
    /\ mi_comments mi = Some (narrators_paragraph names +:+ summary_text summary).
Proof.
  intros ((id & Hid & Ti) & (title & Htitle & Tt) & (authors & Hauthors & Ta))
         Hnarr Hnames Hsum Hshape.
  destruct (parse_details_emitted table clean self root id title authors
              (JArr (JStr <$> names)) summary
              (narrators_paragraph names +:+ summary_text summary))
    as (self' & Heq & Hq & _); try assumption.
  - apply (names_of_list root "narrators" nodes); [assumption|].
    eexists. split; [reflexivity | by apply names_Forall2_strings].
  - by apply assemble_comments_strings.
  - eexists _, self'. split; [exact Heq|]. split; [exact Hq | reflexivity].
Qed.

(** ** Series *)

(** X12: a queued record has both series attributes or none.  It has
    the name and the index [parse_series] returned when [parse_series]
    returned a name that is not [None], and it has neither in every other
    case: no series node, a name that is [None], or an exception. *)
Theorem emitted_record_series
    table clean (self : Worker) (root : json) :
  has_required_fields root ->
  comments_assemble root ->
  exists mi self',
    parse_details table clean self root = (Ok (), self')
    /\ self_result_queue self' = self_result_queue self ++ [clean mi]
    /\ (mi_series mi, mi_series_index mi)
       = match fst (parse_series self root) with
         | Ok (series, Some index) =>
             if is_None series then (None, None) else (Some series, Some index)
         | _ => (None, None)
         end.
Proof.
  intros Hreq Hcomments.
  pose proof Hreq as ((id & Hid & _) & _).
  destruct (parse_details_with_required_fields table clean self root id Hreq Hid)
    as [(_ & mi & self' & Heq & Hq & _ & _ & Hser)|(Hno & _)]; [|by destruct Hno].
  exists mi, self'. split; [exact Heq|]. split; [exact Hq|]. exact Hser.
Qed.

(** ** Tags *)

Lemma convert_loop_strings table (acc : list string) (genre_tags : list json)
    (out : list string) :
  convert_loop table acc genre_tags = Ok out ->
  exists genres, genre_tags = JStr <$> genres.
Proof.
  revert acc. induction genre_tags as [|g rest IH]; intros acc Hout.
  - by exists [].
  - destruct g as [| | | |s| |]; try discriminate.
    rewrite convert_loop_cons in Hout.
    assert (exists genres, rest = JStr <$> genres) as [genres ->].
    { repeat case_match; eauto. }
    by exists (s :: genres).
Qed.

Lemma lookup_ci_In table (genre : string) (tags : list string) :
  lookup_ci table genre = Some tags ->
  exists key, (key, tags) ∈ table /\ str_lower key = str_lower genre.
Proof.
  induction table as [|[k v] table IH]; simpl; [discriminate|].
  destruct (lookup_ci table genre) as [tags'|].
  - intros [= <-]. destruct (IH eq_refl) as (key & Hin & Hkey).
    exists key. split; [by apply list_elem_of_further | exact Hkey].
  - destruct (String.eqb_spec (str_lower k) (str_lower genre)) as [Heq|]; [|discriminate].
    intros [= <-]. exists k. split; [apply list_elem_of_here | exact Heq].
Qed.

(** X13: [parse_tags] never returns an empty list: its answer is [None]
    or a list of at least one tag, without repetition, each tag taken from
    an entry of the user's table. *)
Theorem parse_tags_never_empty
    (table : list (string * list string)) (root : json) (tags : list string) :
  parse_tags table root = Ok (Some tags) ->
  tags <> []
  /\ NoDup tags
  /\ (forall tag, tag ∈ tags -> exists key entry, (key, entry) ∈ table /\ tag ∈ entry).
Proof.
  unfold parse_tags. intros Hparse.
  destruct (getitem root "genres") as [genres_node|]; simpl in Hparse; [|discriminate].
  destruct (truthy genres_node); [|discriminate].
  destruct (iter genres_node) as [items|]; simpl in Hparse; [|discriminate].
  destruct (for_each _ items) as [genre_tags|]; simpl in Hparse; [|discriminate].
  destruct (_convert_genres_to_calibre_tags table genre_tags) as [out|] eqn:Hout;
    simpl in Hparse; [|discriminate].
  destruct out as [|t out]; simpl in Hparse; [discriminate|].
  injection Hparse as <-. split; [discriminate|].
  destruct (convert_loop_strings table [] genre_tags _ Hout) as [genres ->].
  rewrite convert_genres_result in Hout. injection Hout as Hout.
  rewrite <- Hout. split; [apply first_occurrences_NoDup|].
  intros tag Htag. apply first_occurrences_elem, mapped_tags_elem in Htag.
  destruct Htag as (g & entry & _ & Hlook & Hin).
  destruct (lookup_ci_In _ _ _ Hlook) as (key & Hkey & _). eauto.
Qed.

(** ** Dates *)



(** What the parser for ASCII text returns is a [datetime]. *)
Lemma new_is_datetime y m d hr mn sc (dt : Datetime.datetime) :
  Datetime.new y m d hr mn sc = Ok dt -> is_datetime dt.
Proof.
  unfold Datetime.new. case_match eqn:Hvalid; [|discriminate].
  intros [= <-]. unfold is_datetime, Datetime.new. simpl. by rewrite Hvalid.
Qed.

Lemma strptime_is_datetime (s : string) (dt : Datetime.datetime) :
  Datetime.strptime s = Some dt -> is_datetime dt.
Proof.
  unfold Datetime.strptime. intros Hparsed.
  repeat match type of Hparsed with
  | _ ≫= _ = Some _ => apply bind_Some in Hparsed as (? & _ & Hparsed)
  | match ?x with _ => _ end = Some _ => destruct x eqn:?; try discriminate
  end.
  injection Hparsed as <-. eapply new_is_datetime; eassumption.
Qed.


(** ** A worker's run *)

(** X15: a run of a worker adds at most one record to the queue, and
    only for a body that decodes to a document with the required fields;
    in every other case (a failed request, an undecodable or empty body, a
    missing required field, an exception in [parse_details]) the queue and
    the plugin's caches are left as they were. *)
Theorem run_queues_at_most_one
    table clean (self : Worker) (page : fetched) :
  (self_result_queue (run table clean self page) = self_result_queue self
   /\ self_plugin (run table clean self page) = self_plugin self)
  \/ (exists root mi,
        page = Body (Ok root)
        /\ has_required_fields root
        /\ comments_assemble root
        /\ self_result_queue (run table clean self page)
           = self_result_queue self ++ [clean mi]).
Proof.
  unfold run, get_details.
  destruct page as [| | |[root|e]]; simpl; try (left; by split).
  destruct (truthy root); simpl; [|left; by split].
  set (self1 := log_call Info self _).
  destruct (has_required_fields_dec root) as [Hreq|Hmissing].
  - pose proof Hreq as ((id & Hid & _) & _).
    destruct (parse_details_with_required_fields table clean self1 root id Hreq Hid)
      as [(Hcomments & mi & self' & -> & Hq & _)|(_ & e & self' & -> & Hq & Hpl)].
    + right. exists root, mi.
      split; [reflexivity|]. split; [exact Hreq|]. split; [exact Hcomments|].
      simpl. by rewrite Hq.
    + left. simpl. by rewrite Hq, Hpl.
  - destruct (parse_details_rejects table clean self1 root Hmissing)
      as (self' & -> & Hq & Hpl).
    left. by rewrite Hq, Hpl.
Qed.

(** ** The cover cache *)

Lemma cached_cover_lookup (plugin : Plugin) (isbn : json) (id : string) (cover : json) :
  truthy cover = true ->
  Audible.get_cached_cover_url (cached plugin isbn (JStr id) cover)
    {[ "audible" := id ]}
  = Some cover.
Proof.
  intros Hcover. unfold Audible.get_cached_cover_url, cached.
  change Audible.ID_NAME with "audible".
  rewrite lookup_singleton_eq, Hcover.
  unfold cached_identifier_to_cover_url. simpl.
  rewrite String.eqb_refl. by destruct cover.
Qed.

Lemma parse_details_caches_cover table clean self root (id : string) (cover : json) :
  has_required_fields root ->
  comments_assemble root ->
  getitem root "asin" = Ok (JStr id) ->
  getitem root "image" = Ok cover ->
  truthy cover = true ->
  exists mi self',
    parse_details table clean self root = (Ok (), self')
    /\ self_result_queue self' = self_result_queue self ++ [clean mi]
    /\ Audible.get_cached_cover_url (self_plugin self') {[ "audible" := id ]}
       = Some cover.
Proof.
  intros Hreq Hcomments Hid Himage Hcover.
  destruct (parse_details_with_required_fields table clean self root (JStr id) Hreq Hid)
    as [(_ & mi & self' & Heq & Hq & Hpl & _)|(Hno & _)]; [|by destruct Hno].
  exists mi, self'. split; [exact Heq|]. split; [exact Hq|].
  rewrite Hpl, Himage. by apply cached_cover_lookup.
Qed.

(** X16: once [parse_details] has queued the record of a document with
    a string identifier and a non-empty image url, the cover url cached
    for that identifier is the image url of the document. *)
Theorem cover_url_cached_for_identifier
    table clean (self : Worker) (root : json) (id : string) (cover : json) :
  has_required_fields root ->
  comments_assemble root ->
  getitem root "asin" = Ok (JStr id) ->
  getitem root "image" = Ok cover ->
  truthy cover = true ->
  exists mi self',
    parse_details table clean self root = (Ok (), self')
    /\ self_result_queue self' = self_result_queue self ++ [clean mi]
    /\ Audible.get_cached_cover_url (self_plugin self') {[ "audible" := id ]}
       = Some cover.
Proof. apply parse_details_caches_cover. Qed.

(** ** Cover download with a cached cover *)

Lemma download_cover_cached
    identify_body sort_results open_novisit_read
    (st : Audible.State) (abort : bool) (title : option string)
    (authors : option (list string)) (identifiers : gmap string string)
    (cover : json) :
  Audible.get_cached_cover_url (Audible.st_plugin st) identifiers = Some cover ->
  let outcome :=
    Audible.download_cover identify_body sort_results open_novisit_read
      st abort title authors identifiers in
  fst outcome = Ok ()
  /\ Audible.st_plugin (snd outcome) = Audible.st_plugin st
  /\ Audible.st_result_queue (snd outcome)
     = if abort then Audible.st_result_queue st
       else match open_novisit_read cover with
            | Ok cdata => Audible.st_result_queue st ++ [cdata]
            | Raise _ => Audible.st_result_queue st
            end.
Proof.
  intros Hhit. unfold Audible.download_cover, Audible.fetch_cover. rewrite Hhit.
  destruct abort; [by repeat split|].
  by destruct (open_novisit_read cover).
Qed.

(** X17: with a cover url cached for the identifiers, [download_cover]
    does not call [identify] and does not raise: unless it is cancelled,
    it requests that url once and queues the bytes it gets; a failed
    request queues nothing. *)
Theorem download_cover_from_cache
    identify_body sort_results open_novisit_read
    (st : Audible.State) (abort : bool) (title : option string)
    (authors : option (list string)) (identifiers : gmap string string)
    (cover : json) :
  Audible.get_cached_cover_url (Audible.st_plugin st) identifiers = Some cover ->
  fst (Audible.download_cover identify_body sort_results open_novisit_read
         st abort title authors identifiers) = Ok ()
  /\ Audible.st_plugin
       (snd (Audible.download_cover identify_body sort_results open_novisit_read
               st abort title authors identifiers)) = Audible.st_plugin st
  /\ Audible.st_result_queue
       (snd (Audible.download_cover identify_body sort_results open_novisit_read
               st abort title authors identifiers))
     = if abort then Audible.st_result_queue st
       else match open_novisit_read cover with
            | Ok cdata => Audible.st_result_queue st ++ [cdata]
            | Raise _ => Audible.st_result_queue st
            end.
Proof. apply download_cover_cached. Qed.

(** X18: the worker and the cover download fit together: after
    [parse_details] has queued the record of a document with a string
    identifier and a non-empty image url, [download_cover] for that
    identifier requests the image url of the document and queues what it
    gets, without a new search. *)
Theorem download_cover_after_parse_details
    table clean identify_body sort_results open_novisit_read
    (self : Worker) (root : json) (id : string) (cover : json) (cdata : string)
    (log : list log_record) (queue : list string) (title : option string)
    (authors : option (list string)) :
  has_required_fields root ->
  comments_assemble root ->
  getitem root "asin" = Ok (JStr id) ->
  getitem root "image" = Ok cover ->
  truthy cover = true ->
  open_novisit_read cover = Ok cdata ->
  let self' := snd (parse_details table clean self root) in
  let outcome :=
    Audible.download_cover identify_body sort_results open_novisit_read
      (Audible.mk_State (self_plugin self') log queue) false title authors
      {[ "audible" := id ]} in
  fst outcome = Ok ()
  /\ Audible.st_result_queue (snd outcome) = queue ++ [cdata].
Proof.
  intros Hreq Hcomments Hid Himage Hcover Hopen self' outcome.
  destruct (parse_details_caches_cover table clean self root id cover)
    as (mi & self1 & Heq & _ & Hcached); try assumption.
  subst self' outcome. rewrite Heq. simpl.
  destruct (download_cover_cached identify_body sort_results open_novisit_read
              (Audible.mk_State (self_plugin self1) log queue) false title authors
              {[ "audible" := id ]} cover Hcached) as (Hok & _ & Hq).
  split; [exact Hok|]. rewrite Hq, Hopen. reflexivity.
Qed.

(** ** The log *)

Lemma log_call_prefix lvl self msg :
  self_log self `prefix_of` self_log (log_call lvl self msg).
Proof. by apply prefix_app_r. Qed.

Lemma log_call_elem lvl self msg : (lvl, msg) ∈ self_log (log_call lvl self msg).
Proof. simpl. apply elem_of_app. right. apply list_elem_of_here. Qed.

Lemma parse_series_log self root :
  self_log self `prefix_of` self_log (snd (parse_series self root)).
Proof.
  unfold parse_series. repeat case_match; simpl;
    first [reflexivity | by apply prefix_app_r].
Qed.

Ltac log_step f :=
  unfold f; split;
  [ repeat case_match; simpl; first [reflexivity | by apply prefix_app_r]
  | intros e He; rewrite He; apply log_call_elem ].

Lemma try_narrators_log self authors root :
  self_log self `prefix_of` self_log (snd (try_narrators self authors root))
  /\ (forall e, parse_narrators root = Raise e ->
        (Exception, "Error parsing authors for url: %r")
        ∈ self_log (snd (try_narrators self authors root))).
Proof. log_step @try_narrators. Qed.

Lemma try_series_log mi self root :
  self_log self `prefix_of` self_log (snd (try_series mi self root))
  /\ (forall e, fst (parse_series self root) = Raise e ->
        (Exception, "Error parsing series for url: %r")
        ∈ self_log (snd (try_series mi self root))).
Proof.
  unfold try_series. pose proof (parse_series_log self root) as Hlog.
  destruct (parse_series self root) as [[[series index]|e'] self1]; simpl in *; split.
  - by repeat case_match.
  - discriminate.
  - by apply prefix_app_r.
  - intros _ _. apply elem_of_app. right. apply list_elem_of_here.
Qed.

Lemma try_rating_log mi self root :
  self_log self `prefix_of` self_log (snd (try_rating mi self root))
  /\ (forall e, (rating ← getitem root "rating"; to_float rating) = Raise e ->
        (Exception, "Error parsing ratings for url: %r")
        ∈ self_log (snd (try_rating mi self root))).
Proof. log_step @try_rating. Qed.

Lemma try_summary_log self root :
  self_log self `prefix_of` self_log (snd (try_summary self root))
  /\ (forall e, getitem root "summary" = Raise e ->
        (Exception, "Error parsing comments for url: %r")
        ∈ self_log (snd (try_summary self root))).
Proof. log_step @try_summary. Qed.

Lemma try_cover_log mi self root :
  self_log self `prefix_of` self_log (snd (try_cover mi self root))
  /\ (forall e, getitem root "image" = Raise e ->
        (Exception, "Error parsing cover for url: %r")
        ∈ self_log (snd (try_cover mi self root))).
Proof. log_step @try_cover. Qed.

Lemma try_tags_log table mi self root :
  self_log self `prefix_of` self_log (snd (try_tags table mi self root))
  /\ (forall e, parse_tags table root = Raise e ->
        (Exception, "Error parsing tags for url: %r")
        ∈ self_log (snd (try_tags table mi self root))).
Proof. log_step @try_tags. Qed.

Lemma try_publisher_log mi self root :
  self_log self `prefix_of` self_log (snd (try_publisher mi self root))
  /\ (forall e, getitem root "publisherName" = Raise e ->
        (Exception, "Error parsing publisher for url: %r")
        ∈ self_log (snd (try_publisher mi self root))).
Proof. log_step @try_publisher. Qed.

Lemma try_pubdate_log mi self root :
  self_log self `prefix_of` self_log (snd (try_pubdate mi self root))
  /\ (forall e,
        (date_text ← getitem root "releaseDate"; _convert_date_text date_text) = Raise e ->
        (Exception, "Error parsing date for url: %r")
        ∈ self_log (snd (try_pubdate mi self root))).
Proof. log_step @try_pubdate. Qed.

Lemma try_language_log mi self root :
  self_log self `prefix_of` self_log (snd (try_language mi self root))
  /\ (forall e,
        (language ← getitem root "language"; method_capitalize language) = Raise e ->
        (Exception, "Error parsing language for url: %r")
        ∈ self_log (snd (try_language mi self root))).
Proof. log_step @try_language. Qed.

Lemma fill_fields_log table self title authors id root :
  let log' := self_log (snd (fill_fields table self title authors id root)) in
  self_log self `prefix_of` log'
  /\ (forall e, parse_narrators root = Raise e ->
        (Exception, "Error parsing authors for url: %r") ∈ log')
  /\ (forall e, fst (parse_series self root) = Raise e ->
        (Exception, "Error parsing series for url: %r") ∈ log')
  /\ (forall e, (rating ← getitem root "rating"; to_float rating) = Raise e ->
        (Exception, "Error parsing ratings for url: %r") ∈ log')
  /\ (forall e, getitem root "summary" = Raise e ->
        (Exception, "Error parsing comments for url: %r") ∈ log')
  /\ (forall e, getitem root "image" = Raise e ->
        (Exception, "Error parsing cover for url: %r") ∈ log')
  /\ (forall e, parse_tags table root = Raise e ->
        (Exception, "Error parsing tags for url: %r") ∈ log')
  /\ (forall e, getitem root "publisherName" = Raise e ->
        (Exception, "Error parsing publisher for url: %r") ∈ log')
  /\ (forall e,
        (date_text ← getitem root "releaseDate"; _convert_date_text date_text) = Raise e ->
        (Exception, "Error parsing date for url: %r") ∈ log')
  /\ (forall e,
        (language ← getitem root "language"; method_capitalize language) = Raise e ->
        (Exception, "Error parsing language for url: %r") ∈ log').
Proof.
  unfold fill_fields.
  set (self0 := set_audible_id _ id).
  set (mi0 := set_identifier _ _ _).
  assert (H0 : self_log self `prefix_of` self_log self0) by (by apply prefix_app_r).
  pose proof (try_narrators_log self0 authors root) as [P1 E1].
  destruct (try_narrators self0 authors root) as [[narrators authors'] self1].
  pose proof (try_series_log mi0 self1 root) as [P2 E2].
  rewrite (parse_series_fst self1 self root) in E2.
  destruct (try_series mi0 self1 root) as [mi2 self2].
  pose proof (try_rating_log mi2 self2 root) as [P3 E3].
  destruct (try_rating mi2 self2 root) as [mi3 self3].
  pose proof (try_summary_log self3 root) as [P4 E4].
  destruct (try_summary self3 root) as [summary self4].
  pose proof (try_cover_log mi3 self4 root) as [P5 E5].
  destruct (try_cover mi3 self4 root) as [mi5 self5].
  pose proof (try_tags_log table mi5 self5 root) as [P6 E6].
  destruct (try_tags table mi5 self5 root) as [mi6 self6].
  pose proof (try_publisher_log mi6 self6 root) as [P7 E7].
  destruct (try_publisher mi6 self6 root) as [mi7 self7].
  pose proof (try_pubdate_log mi7 self7 root) as [P8 E8].
  destruct (try_pubdate mi7 self7 root) as [mi8 self8].
  pose proof (try_language_log mi8 self8 root) as [P9 E9].
  destruct (try_language mi8 self8 root) as [mi9 self9].
  simpl in *.
  assert (Q8 : self_log self8 `prefix_of` self_log self9) by done.
  assert (Q7 : self_log self7 `prefix_of` self_log self9) by (by etrans).
  assert (Q6 : self_log self6 `prefix_of` self_log self9) by (by etrans).
  assert (Q5 : self_log self5 `prefix_of` self_log self9) by (by etrans).
  assert (Q4 : self_log self4 `prefix_of` self_log self9) by (by etrans).
  assert (Q3 : self_log self3 `prefix_of` self_log self9) by (by etrans).
  assert (Q2 : self_log self2 `prefix_of` self_log self9) by (by etrans).
  assert (Q1 : self_log self1 `prefix_of` self_log self9) by (by etrans).
  assert (Q0 : self_log self0 `prefix_of` self_log self9) by (by etrans).
  split; [by etrans|].
  repeat split; intros e He;
    eauto using elem_of_prefix.
Qed.

Lemma parse_details_log table clean self root :
  has_required_fields root ->
  exists title authors id,
    self_log (snd (parse_details table clean self root))
    = self_log (snd (fill_fields table self title authors id root)).
Proof.
  intros Hreq.
  destruct (parse_details_accepts table clean self root Hreq)
    as (id & title & authors & _ & _ & _ & _ & _ & _ & ->).
  exists title, authors, id.
  destruct (fill_fields table self title authors id root)
    as [[[mi narrators] summary] self1].
  destruct (assemble_comments narrators summary); simpl; [|reflexivity].
  unfold cache_associations. by repeat case_match.
Qed.

(** X19: for a document with the required fields, [parse_details] only
    adds to the log, and every optional field whose extraction raised has
    left its line there, whether the record is queued in the end or not.
    A failure of the narrators is logged under the message of the
    authors. *)
Theorem optional_failures_are_logged
    table clean (self : Worker) (root : json) :
  has_required_fields root ->
  self_log self `prefix_of` self_log (snd (parse_details table clean self root))
  /\ (forall e, parse_narrators root = Raise e ->
        (Exception, "Error parsing authors for url: %r")
        ∈ self_log (snd (parse_details table clean self root)))
  /\ (forall e, fst (parse_series self root) = Raise e ->
        (Exception, "Error parsing series for url: %r")
        ∈ self_log (snd (parse_details table clean self root)))
  /\ (forall e, (rating ← getitem root "rating"; to_float rating) = Raise e ->
        (Exception, "Error parsing ratings for url: %r")
        ∈ self_log (snd (parse_details table clean self root)))
  /\ (forall e, getitem root "summary" = Raise e ->
        (Exception, "Error parsing comments for url: %r")
        ∈ self_log (snd (parse_details table clean self root)))
  /\ (forall e, getitem root "image" = Raise e ->
        (Exception, "Error parsing cover for url: %r")
        ∈ self_log (snd (parse_details table clean self root)))
  /\ (forall e, parse_tags table root = Raise e ->
        (Exception, "Error parsing tags for url: %r")
        ∈ self_log (snd (parse_details table clean self root)))
  /\ (forall e, getitem root "publisherName" = Raise e ->
        (Exception, "Error parsing publisher for url: %r")
        ∈ self_log (snd (parse_details table clean self root)))
  /\ (forall e,
        (date_text ← getitem root "releaseDate"; _convert_date_text date_text) = Raise e ->
        (Exception, "Error parsing date for url: %r")
        ∈ self_log (snd (parse_details table clean self root)))
  /\ (forall e,
        (language ← getitem root "language"; method_capitalize language) = Raise e ->
        (Exception, "Error parsing language for url: %r")
        ∈ self_log (snd (parse_details table clean self root))).
Proof.
  intros Hreq.
  destruct (parse_details_log table clean self root Hreq)
    as (title & authors & id & ->).
  apply fill_fields_log.
Qed.

End FurtherProperties.

(** ** A search without result *)

(** X20: without an identifier, what [identify] does when the search
    gives nothing to read.  When no query can be built it returns [None]
    (no request is made) and logs that the metadata is insufficient.
    With a query: on an HTTP 404 it logs the error and returns the text
    of the exception; on a body that does not decode it logs the
    exception and returns the message; on an empty body it logs the error
    and returns [None]; and after any other failure of the request it
    returns nothing early: it goes on with an empty list of candidates,
    and logs no error. *)
Theorem identify_without_result
    (log : list log_record) (title : option string) (authors : option (list string))
    (identifiers : gmap string string) (search : Audible.searched) :
  absent (identifiers !! "audible") ->
  (Audible.create_query title authors identifiers None = None ->
   Audible.identify_matches log title authors identifiers search
   = (Audible.Return Audible.ReturnNone,
      log ++ [titles_record; (Error, "Insufficient metadata to construct query")]))
  /\ (forall query,
        Audible.create_query title authors identifiers None = Some query ->
        (search = Audible.NotFound ->
         Audible.identify_matches log title authors identifiers search
         = (Audible.Return Audible.ReturnNotFound,
            log ++ [titles_record; (Info, "Query: %s");
                    (Error, "No matches for identify query")]))
        /\ (search = Audible.OtherFailure ->
            Audible.identify_matches log title authors identifiers search
            = (Audible.Matches [], log ++ [titles_record; (Info, "Query: %s")]))
        /\ (forall e, search = Audible.Response (Raise e) ->
            Audible.identify_matches log title authors identifiers search
            = (Audible.Return
                 (Audible.ReturnMessage "Failed to get Audible results for query"),
               log ++ [titles_record; (Info, "Query: %s");
                       (Exception, "Failed to get Audible results for query")]))
        /\ (forall raw, search = Audible.Response (Ok raw) -> truthy raw = false ->
            Audible.identify_matches log title authors identifiers search
            = (Audible.Return Audible.ReturnNone,
               log ++ [titles_record; (Info, "Query: %s");
                       (Error, "Failed to get raw result for query")]))).
Proof.
  intros Hid. unfold Audible.identify_matches.
  change Audible.ID_NAME with "audible".
  rewrite (proj2 (truthy_str_absent _) Hid).
  fold titles_record.
  split.
  - intros ->. by rewrite <- app_assoc.
  - intros query ->. split; [|split; [|split]].
    + intros ->. by rewrite <- !app_assoc.
    + intros ->. by rewrite <- !app_assoc.
    + intros e ->. by rewrite <- !app_assoc.
    + intros raw -> ->. simpl. by rewrite <- !app_assoc.
Qed.

Lemma identify_without_result_witness :
  Audible.identify_matches [] (Some "1984") None ∅ Audible.OtherFailure
  = (Audible.Matches [], [] ++ [titles_record; (Info, "Query: %s")]).
Proof.
  destruct (identify_without_result [] (Some "1984") None ∅ Audible.OtherFailure)
    as [_ Hquery].
  - left. reflexivity.
  - destruct (Hquery _ eq_refl) as (_ & Hother & _). apply Hother. reflexivity.
Defined.

(** * The code on ASCII text

    The statements above hold for any builtins.  Here the code runs with
    the builtins of [ascii_text], on documents whose series positions,
    ratings, dates, languages, genres and table keys are text of ASCII
    characters: [ascii_text] computes what the interpreter computes on
    such text. *)

Section AsciiText.

#[local] Existing Instance ascii_text.

(** ** Book numbers *)

Lemma numeral_digits (u : Decimal.uint) : forallb is_digit (numeral u) = true.
Proof. unfold numeral. induction u; simpl; auto. Qed.

Lemma digits_no_underscore (prev : ascii) (l : list ascii) :
  forallb is_digit l = true -> Ascii.eqb prev "_" = false ->
  remove_underscores prev l = Some l.
Proof.
  revert prev. induction l as [|c l IH]; intros prev Hl Hprev; simpl.
  - by rewrite Hprev.
  - simpl in Hl. apply andb_prop in Hl as [Hc Hl].
    assert (Ascii.eqb c "_" = false) as Hcu.
    { destruct (Ascii.eqb_spec c "_") as [->|]; [discriminate | reflexivity]. }
    rewrite Hcu, Hprev. simpl. by rewrite (IH c Hl Hcu).
Qed.

Lemma digits_lstrip (l : list ascii) :
  forallb is_digit l = true -> lstrip l = l.
Proof.
  destruct l as [|c l]; [reflexivity|]. simpl. intros Hl.
  apply andb_prop in Hl as [Hc _].
  assert (is_space c = false) as ->; [|reflexivity].
  destruct c as [[] [] [] [] [] [] [] []]; try discriminate; reflexivity.
Qed.

Lemma digits_strip (l : list ascii) :
  forallb is_digit l = true -> strip l = l.
Proof.
  intros Hl. unfold strip. rewrite (digits_lstrip l Hl).
  rewrite digits_lstrip; [apply rev_involutive|].
  apply forallb_forall. intros c Hc. apply in_rev in Hc.
  by apply (proj1 (forallb_forall _ _) Hl).
Qed.

Lemma digits_span (l : list ascii) :
  forallb is_digit l = true -> span_digits l = (l, []).
Proof.
  induction l as [|c l IH]; [reflexivity|]. simpl. intros Hl.
  apply andb_prop in Hl as [-> Hl]. by rewrite (IH Hl).
Qed.

Lemma digits_take_sign (l : list ascii) :
  forallb is_digit l = true -> take_sign l = (false, l).
Proof.
  destruct l as [|c l]; [reflexivity|]. simpl. intros Hl.
  apply andb_prop in Hl as [Hc _].
  destruct c as [[] [] [] [] [] [] [] []]; try discriminate; reflexivity.
Qed.

Lemma numeral_value (u v : Decimal.uint) :
  fold_left (fun acc c => 10 * acc + digit_value c) (numeral u)
            (Z.of_N (DecimalPos.Unsigned.of_lu v))
  = Z.of_N (DecimalPos.Unsigned.of_lu (Decimal.revapp u v)).
Proof.
  unfold numeral. revert v.
  induction u; intros v; simpl; [reflexivity|..];
    rewrite <- IHu; f_equal; simpl DecimalPos.Unsigned.of_lu;
    unfold digit_value;
    match goal with
    | |- context [Z.of_nat (nat_of_ascii ?c)] =>
        let k := eval vm_compute in (Z.of_nat (nat_of_ascii c)) in
        change (Z.of_nat (nat_of_ascii c)) with k
    end; lia.
Qed.

Lemma digits_value_numeral (n : N) :
  digits_value (numeral (N.to_uint n)) = Z.of_N n.
Proof.
  unfold digits_value.
  change 0 with (Z.of_N (DecimalPos.Unsigned.of_lu Decimal.Nil)).
  rewrite (numeral_value (N.to_uint n) Decimal.Nil).
  change (Decimal.revapp (N.to_uint n) Decimal.Nil) with (Decimal.rev (N.to_uint n)).
  rewrite <- DecimalPos.Unsigned.of_uint_alt.
  change (Pos.of_uint (N.to_uint n)) with (N.of_uint (N.to_uint n)).
  by rewrite DecimalN.Unsigned.of_to.
Qed.

Lemma numeral_nonempty (n : N) : numeral (N.to_uint n) <> [].
Proof.
  unfold numeral. destruct n as [|p]; [discriminate|]. simpl.
  pose proof (DecimalPos.Unsigned.to_uint_nonnil p) as Hnil.
  destruct (Pos.to_uint p); [by destruct Hnil|..]; discriminate.
Qed.

Lemma float_of_string_decimal (n : N) :
  float_of_string (decimal n) = Some (float_of_Z (Z.of_N n)).
Proof.
  unfold float_of_string, decimal. fold (numeral (N.to_uint n)).
  pose proof (numeral_digits (N.to_uint n)) as Hdigits.
  pose proof (numeral_nonempty n) as Hne.
  rewrite (digits_no_underscore zero _ Hdigits eq_refl). simpl.
  rewrite (digits_strip _ Hdigits), (digits_take_sign _ Hdigits).
  unfold parse_decimal. rewrite (digits_span _ Hdigits), app_nil_r.
  destruct (numeral (N.to_uint n)) as [|c l] eqn:Hnum; [by destruct Hne|].
  simpl. rewrite <- Hnum, digits_value_numeral.
  unfold float_of_decimal, float_of_Z. simpl.
  destruct n as [|p]; [reflexivity|]. simpl. by rewrite Pos.mul_1_r.
Qed.

Lemma split_space_numeral (u : Decimal.uint) :
  split_space (DecimalString.NilEmpty.string_of_uint u)
  = [DecimalString.NilEmpty.string_of_uint u].
Proof. induction u; simpl; [reflexivity|..]; by rewrite IHu. Qed.

Lemma split_space_label (label rest : string) :
  has_space label = false ->
  split_space (label +:+ String " " rest) = label :: split_space rest.
Proof.
  induction label as [|c label IH]; simpl; [reflexivity|].
  destruct (Ascii.eqb c " "); [discriminate|].
  intros Hlabel. by rewrite (IH Hlabel).
Qed.

(** X21: a position made of a label without space, one space and the
    decimal numeral of a number [n], such as [Book 12], gives the series
    name with the index [n] as a float. *)
Theorem parse_series_label_and_number
    (self : Worker) (root node name : json) (label : string) (n : N) :
  getitem root "seriesPrimary" = Ok node ->
  getitem node "name" = Ok name ->
  has_space label = false ->
  getitem node "position" = Ok (JStr (label +:+ " " +:+ decimal n)) ->
  fst (parse_series self root) = Ok (name, Some (float_of_Z (Z.of_N n))).
Proof.
  intros Hnode Hname Hlabel Hpos.
  rewrite (parse_series_returns self root node name (label +:+ " " +:+ decimal n)
             label (decimal n) [] (float_of_Z (Z.of_N n)));
    try assumption; [reflexivity| |apply float_of_string_decimal].
  change (label +:+ " " +:+ decimal n) with (label +:+ String " " (decimal n)).
  rewrite (split_space_label _ _ Hlabel). unfold decimal.
  by rewrite split_space_numeral.
Qed.

Lemma parse_series_label_and_number_witness :
  fst (parse_series (__init__ "" [] [] 0 (mk_Plugin [] []))
         (JObj [("seriesPrimary",
                 JObj [("name", JStr "Discworld"); ("position", JStr "Book 12")])]))
  = Ok (JStr "Discworld", Some (float_of_Z (Z.of_N 12))).
Proof.
  apply (parse_series_label_and_number _ _
           (JObj [("name", JStr "Discworld"); ("position", JStr "Book 12")])
           (JStr "Discworld") "Book" 12); reflexivity.
Defined.

(** ** Runs of the conversions and of the detail parser *)

Lemma convert_genres_case_insensitive_first_seen_witness :
  Worker._convert_genres_to_calibre_tags
    [("Science Fiction", ["SciFi"; "Fiction"]); ("fantasy", ["Fantasy"; "Fiction"])]
    (JStr <$> ["FANTASY"; "science fiction"])
  = Ok ["Fantasy"; "Fiction"; "SciFi"].
Proof.
  destruct (convert_genres_case_insensitive_first_seen
              [("Science Fiction", ["SciFi"; "Fiction"]);
               ("fantasy", ["Fantasy"; "Fiction"])]
              ["FANTASY"; "science fiction"]) as (out & Hout & Heq & _).
  rewrite Hout, Heq. vm_compute. reflexivity.
Defined.

(** Two genres in different case that map to overlapping tags. *)
Example convert_genres_example :
  Worker._convert_genres_to_calibre_tags
    [("Science Fiction", ["SciFi"; "Fiction"]); ("fantasy", ["Fantasy"; "Fiction"])]
    [JStr "FANTASY"; JStr "science fiction"; JStr "Horror"]
  = Ok ["Fantasy"; "Fiction"; "SciFi"].
Proof. vm_compute. reflexivity. Qed.

Lemma parse_details_emits_only_with_required_fields_witness :
  self_result_queue
    (snd (parse_details [] (fun mi => mi) (__init__ "" [] [] 0 (mk_Plugin [] []))
            (JObj [("asin", JStr "B002V19RO6");
                   ("authors", JArr [JObj [("name", JStr "George Orwell")]]);
                   ("narrators", JArr [JObj [("name", JStr "Simon Prebble")]]);
                   ("summary", JStr "A novel."); ("rating", JStr "4.5")])))
  = self_result_queue (__init__ "" [] [] 0 (mk_Plugin [] [])).
Proof.
  apply (proj2 (parse_details_emits_only_with_required_fields [] (fun mi => mi)
                  (__init__ "" [] [] 0 (mk_Plugin [] [])) _)).
  intros (_ & (v & Hv & _) & _). discriminate Hv.
Defined.

Lemma emitted_record_cover_flag_and_cache_witness :
  let root :=
    JObj [("asin", JStr "B002V19RO6"); ("title", JStr "1984");
          ("authors", JArr [JObj [("name", JStr "George Orwell")]]);
          ("narrators", JArr [JObj [("name", JStr "Simon Prebble")]]);
          ("summary", JStr "A novel.");
          ("image", JStr "https://m.media-amazon.com/images/I/1984.jpg")] in
  let self' :=
    snd (parse_details [] (fun mi => mi)
           (__init__ "" [] [] 0 (mk_Plugin [] [])) root) in
  exists mi id,
    self_result_queue self' = [] ++ [mi]
    /\ getitem root "asin" = Ok id /\ truthy id = true
    /\ mi_has_cover mi = Some (has_image root)
    /\ (has_image root = true <-> present root "image")
    /\ self_plugin self'
       = match getitem root "image" with
         | Ok cover =>
             if truthy cover
             then cache_identifier_to_cover_url (mk_Plugin [] []) id cover
             else mk_Plugin [] []
         | Raise _ => mk_Plugin [] []
         end.
Proof.
  intros root self'.
  apply (emitted_record_cover_flag_and_cache [] (fun mi => mi) "" [] [] 0
           (mk_Plugin [] []) root).
  vm_compute. discriminate.
Defined.

(** The position [Book 3] gives the series index 3.0. *)
Lemma parse_series_second_piece_witness :
  fst (parse_series (__init__ "" [] [] 0 (mk_Plugin [] []))
         (JObj [("seriesPrimary",
                 JObj [("name", JStr "Discworld"); ("position", JStr "Book 3")])]))
  = Ok (JStr "Discworld", Some (float_of_Z 3)).
Proof.
  apply (parse_series_second_piece _ _
           (JObj [("name", JStr "Discworld"); ("position", JStr "Book 3")])
           (JStr "Discworld") "Book 3" "Book" "3" []);
    [reflexivity | reflexivity | reflexivity | reflexivity | vm_compute; reflexivity].
Defined.

(** C7 as stated fails: [Book  3], with two spaces, has the two
    whitespace-separated tokens [Book] and [3], the second one a number,
    and [parse_series] raises on it: the second piece of the cut at single
    spaces is empty. *)
Lemma parse_series_two_spaces_counterexample :
  whitespace_tokens "Book  3" = ["Book"; "3"]
  /\ float_of_string "3" = Some (float_of_Z 3)
  /\ fst (parse_series (__init__ "" [] [] 0 (mk_Plugin [] []))
            (JObj [("seriesPrimary",
                    JObj [("name", JStr "Discworld"); ("position", JStr "Book  3")])]))
     = Raise ValueError.
Proof. repeat split; vm_compute; reflexivity. Qed.

Lemma unparsable_series_position_drops_series_witness :
  exists mi self',
    parse_details [] (fun mi => mi) (__init__ "" [] [] 0 (mk_Plugin [] []))
      (JObj [("asin", JStr "B002V19RO6"); ("title", JStr "1984");
             ("authors", JArr [JObj [("name", JStr "George Orwell")]]);
             ("narrators", JArr [JObj [("name", JStr "Simon Prebble")]]);
             ("summary", JStr "A novel.");
             ("seriesPrimary",
              JObj [("name", JStr "Classics"); ("position", JStr "3")])])
    = (Ok (), self')
    /\ self_result_queue self' = [] ++ [mi]
    /\ mi_series mi = None
    /\ mi_series_index mi = None.
Proof.
  apply (unparsable_series_position_drops_series [] (fun mi => mi)
           (__init__ "" [] [] 0 (mk_Plugin [] [])) _
           (JObj [("name", JStr "Classics"); ("position", JStr "3")]) "3").
  - repeat split.
    + exists (JStr "B002V19RO6"). split; reflexivity.
    + exists (JStr "1984"). split; reflexivity.
    + exists (JArr [JStr "George Orwell"]). split; reflexivity.
  - exists (JArr [JStr "Simon Prebble"]), (JStr "A novel."). eexists.
    repeat split; reflexivity.
  - reflexivity.
  - reflexivity.
  - intros second Hsecond. discriminate Hsecond.
Defined.

(** C10 as stated fails: [ 3], with a space in front, has one
    whitespace-separated token only, and the record still gets the series
    name and the index 3.0: the cut at single spaces has an empty first
    piece and [3] as the second. *)
Lemma leading_space_position_counterexample :
  whitespace_tokens " 3" = ["3"]
  /\ exists mi,
       self_result_queue
         (snd (parse_details [] (fun mi => mi) (__init__ "" [] [] 0 (mk_Plugin [] []))
                 (JObj [("asin", JStr "B002V19RO6"); ("title", JStr "1984");
                        ("authors", JArr [JObj [("name", JStr "George Orwell")]]);
                        ("narrators", JArr [JObj [("name", JStr "Simon Prebble")]]);
                        ("summary", JStr "A novel.");
                        ("seriesPrimary",
                         JObj [("name", JStr "Classics");
                               ("position", JStr " 3")])])))
       = [mi]
       /\ mi_series mi = Some (JStr "Classics")
       /\ mi_series_index mi = Some (float_of_Z 3).
Proof.
  split; [vm_compute; reflexivity|].
  eexists. split; [vm_compute; reflexivity|]. split; vm_compute; reflexivity.
Qed.

(** The same document without the summary instead of the narrators. *)
Example missing_summary_aborts_emission table clean :
  let root :=
    JObj [("asin", JStr "B002V19RO6"); ("title", JStr "1984");
          ("authors", JArr [JObj [("name", JStr "George Orwell")]]);
          ("narrators", JArr [JObj [("name", JStr "Simon Prebble")]])] in
  let self := __init__ "https://api.audnex.us/books/B002V19RO6" [] [] 0
                (mk_Plugin [] []) in
  fst (parse_details table clean self root) = Raise UnboundLocalError
  /\ self_result_queue (snd (parse_details table clean self root)) = [].
Proof. repeat split; vm_compute; reflexivity. Qed.

(** An unparsable rating, by contrast, costs the rating only. *)
Example unparsable_rating_is_isolated :
  exists mi,
    self_result_queue
      (snd (parse_details [] (fun mi => mi) (__init__ "" [] [] 0 (mk_Plugin [] []))
              (JObj [("asin", JStr "B002V19RO6"); ("title", JStr "1984");
                     ("authors", JArr [JObj [("name", JStr "George Orwell")]]);
                     ("narrators", JArr [JObj [("name", JStr "Simon Prebble")]]);
                     ("summary", JStr "A novel.");
                     ("rating", JStr "four stars")])))
    = [mi]
    /\ mi_rating mi = None.
Proof. eexists. split; vm_compute; reflexivity. Qed.

Lemma emitted_record_identity_witness :
  exists mi self',
    parse_details [] (fun mi => mi)
      (__init__ "https://api.audnex.us/books/B002V19RO6" [] [] 3 (mk_Plugin [] []))
      (JObj [("asin", JStr "B002V19RO6"); ("title", JStr "1984");
             ("authors", JArr [JObj [("name", JStr "George Orwell")]]);
             ("narrators", JArr [JObj [("name", JStr "Simon Prebble")]]);
             ("summary", JStr "A novel.")])
    = (Ok (), self')
    /\ self_result_queue self' = [] ++ [mi]
    /\ mi_title mi = JStr "1984"
    /\ mi_authors mi = JArr [JStr "George Orwell"]
    /\ mi_identifiers mi = [("audible", JStr "B002V19RO6")]
    /\ mi_source_relevance mi = Some 3%nat
    /\ self_audible_id self' = JStr "B002V19RO6".
Proof.
  apply (emitted_record_identity [] (fun mi => mi)
           (__init__ "https://api.audnex.us/books/B002V19RO6" [] [] 3 (mk_Plugin [] []))
           _ (JStr "B002V19RO6") (JStr "1984") (JArr [JStr "George Orwell"]));
    try reflexivity.
  exists (JArr [JStr "Simon Prebble"]), (JStr "A novel."). eexists.
  repeat split; reflexivity.
Defined.

Lemma emitted_record_attributes_witness :
  exists mi self',
    parse_details [("Fiction", ["Novels"])] (fun mi => mi)
      (__init__ "" [] [] 0 (mk_Plugin [] []))
      (JObj [("asin", JStr "B002V19RO6"); ("title", JStr "1984");
             ("authors", JArr [JObj [("name", JStr "George Orwell")]]);
             ("narrators", JArr [JObj [("name", JStr "Simon Prebble")]]);
             ("summary", JStr "A novel."); ("rating", JStr "4.5");
             ("publisherName", JStr "Blackstone Audio");
             ("releaseDate", JStr "2007-12-06T00:00:00.000Z");
             ("language", JStr "english");
             ("genres", JArr [JObj [("name", JStr "fiction")]])])
    = (Ok (), self')
    /\ self_result_queue self' = [] ++ [mi]
    /\ mi_rating mi = Some (float_of_decimal false 45 (-1))
    /\ mi_publisher mi = Some (JStr "Blackstone Audio")
    /\ mi_pubdate mi = Some (Datetime.mk_datetime 2007 12 6 0 0 0)
    /\ mi_language mi = Some "English"
    /\ mi_tags mi = Some ["Novels"].
Proof.
  destruct (emitted_record_attributes [("Fiction", ["Novels"])] (fun mi => mi)
              (__init__ "" [] [] 0 (mk_Plugin [] []))
              (JObj [("asin", JStr "B002V19RO6"); ("title", JStr "1984");
                     ("authors", JArr [JObj [("name", JStr "George Orwell")]]);
                     ("narrators", JArr [JObj [("name", JStr "Simon Prebble")]]);
                     ("summary", JStr "A novel."); ("rating", JStr "4.5");
                     ("publisherName", JStr "Blackstone Audio");
                     ("releaseDate", JStr "2007-12-06T00:00:00.000Z");
                     ("language", JStr "english");
                     ("genres", JArr [JObj [("name", JStr "fiction")]])]))
    as (mi & self' & Heq & Hq & Hr & Hp & Hd & Hl & Ht).
  - repeat split.
    + exists (JStr "B002V19RO6"). split; reflexivity.
    + exists (JStr "1984"). split; reflexivity.
    + exists (JArr [JStr "George Orwell"]). split; reflexivity.
  - exists (JArr [JStr "Simon Prebble"]), (JStr "A novel."). eexists.
    repeat split; reflexivity.
  - exists mi, self'. repeat split; assumption.
Defined.

Lemma parse_authors_all_names_in_order_witness :
  parse_authors
    (JObj [("authors", JArr [JObj [("name", JStr "Terry Pratchett")];
                             JObj [("name", JStr "Neil Gaiman")]])])
  = Ok (JArr [JStr "Terry Pratchett"; JStr "Neil Gaiman"]).
Proof.
  apply (proj1 (parse_authors_all_names_in_order
                  (JObj [("authors", JArr [JObj [("name", JStr "Terry Pratchett")];
                                           JObj [("name", JStr "Neil Gaiman")]])])
                  [JObj [("name", JStr "Terry Pratchett")];
                   JObj [("name", JStr "Neil Gaiman")]]
                  (JArr [JStr "Terry Pratchett"; JStr "Neil Gaiman"]))
           eq_refl).
  eexists. split; [reflexivity|]. repeat constructor.
Defined.

Lemma emitted_record_comments_witness :
  exists mi self',
    parse_details [] (fun mi => mi) (__init__ "" [] [] 0 (mk_Plugin [] []))
      (JObj [("asin", JStr "B002V19RO6"); ("title", JStr "Good Omens");
             ("authors", JArr [JObj [("name", JStr "Terry Pratchett")]]);
             ("narrators", JArr [JObj [("name", JStr "Martin Jarvis")];
                                 JObj [("name", JStr "Rebecca Front")]]);
             ("summary", JStr "<p>The end is near.</p>")])
    = (Ok (), self')
    /\ self_result_queue self' = [] ++ [mi]
    /\ mi_comments mi
       = Some (narrators_paragraph ["Martin Jarvis"; "Rebecca Front"]
               +:+ summary_text (JStr "<p>The end is near.</p>")).
Proof.
  apply (emitted_record_comments [] (fun mi => mi)
           (__init__ "" [] [] 0 (mk_Plugin [] [])) _
           [JObj [("name", JStr "Martin Jarvis")]; JObj [("name", JStr "Rebecca Front")]]
           ["Martin Jarvis"; "Rebecca Front"] (JStr "<p>The end is near.</p>")).
  - repeat split.
    + exists (JStr "B002V19RO6"). split; reflexivity.
    + exists (JStr "Good Omens"). split; reflexivity.
    + exists (JArr [JStr "Terry Pratchett"]). split; reflexivity.
  - reflexivity.
  - repeat constructor.
  - reflexivity.
  - right. eauto.
Defined.

Lemma emitted_record_series_witness :
  exists mi self',
    parse_details [] (fun mi => mi) (__init__ "" [] [] 0 (mk_Plugin [] []))
      (JObj [("asin", JStr "B002V19RO6"); ("title", JStr "Mort");
             ("authors", JArr [JObj [("name", JStr "Terry Pratchett")]]);
             ("narrators", JArr [JObj [("name", JStr "Nigel Planer")]]);
             ("summary", JStr "Death takes an apprentice.");
             ("seriesPrimary",
              JObj [("name", JStr "Discworld"); ("position", JStr "Book 4")])])
    = (Ok (), self')
    /\ self_result_queue self' = [] ++ [mi]
    /\ (mi_series mi, mi_series_index mi)
       = (Some (JStr "Discworld"), Some (float_of_Z 4)).
Proof.
  destruct (emitted_record_series [] (fun mi => mi)
              (__init__ "" [] [] 0 (mk_Plugin [] []))
              (JObj [("asin", JStr "B002V19RO6"); ("title", JStr "Mort");
                     ("authors", JArr [JObj [("name", JStr "Terry Pratchett")]]);
                     ("narrators", JArr [JObj [("name", JStr "Nigel Planer")]]);
                     ("summary", JStr "Death takes an apprentice.");
                     ("seriesPrimary",
                      JObj [("name", JStr "Discworld"); ("position", JStr "Book 4")])]))
    as (mi & self' & Heq & Hq & Hser).
  - repeat split.
    + exists (JStr "B002V19RO6"). split; reflexivity.
    + exists (JStr "Mort"). split; reflexivity.
    + exists (JArr [JStr "Terry Pratchett"]). split; reflexivity.
  - exists (JArr [JStr "Nigel Planer"]), (JStr "Death takes an apprentice.").
    eexists. repeat split; reflexivity.
  - exists mi, self'. split; [exact Heq|]. split; [exact Hq|].
    rewrite Hser. vm_compute. reflexivity.
Defined.

Lemma parse_tags_never_empty_witness :
  ["Fantasy"; "Fiction"] <> []
  /\ NoDup ["Fantasy"; "Fiction"]
  /\ (forall tag, tag ∈ ["Fantasy"; "Fiction"] ->
        exists key entry,
          (key, entry) ∈ [("fantasy", ["Fantasy"; "Fiction"]); ("horror", [])]
          /\ tag ∈ entry).
Proof.
  apply (parse_tags_never_empty
           [("fantasy", ["Fantasy"; "Fiction"]); ("horror", [])]
           (JObj [("genres", JArr [JObj [("name", JStr "Fantasy")];
                                   JObj [("name", JStr "Horror")]])])).
  reflexivity.
Defined.

Example convert_date_text_example :
  _convert_date_text (JStr "2013-06-25T17:45:10.250Z")
  = Ok (Datetime.mk_datetime 2013 6 25 0 0 0)
  /\ _convert_date_text (JStr "2013-02-30T00:00:00.000Z") = Raise ValueError
  /\ _convert_date_text (JStr "2013-06-25") = Raise ValueError
  /\ _convert_date_text JNull = Raise TypeError.
Proof. repeat split; vm_compute; reflexivity. Qed.

(** A failed request or an empty body leaves one line in the log. *)
Example run_failed_fetch table clean :
  let self := __init__ "https://api.audnex.us/books/B002V19RO6" [] [] 0
                (mk_Plugin [] []) in
  self_log (run table clean self Http404)
  = [(Info, "Audnexus.us   url: %r"); (Error, "URL malformed: %r")]
  /\ self_log (run table clean self (Body (Ok (JObj []))))
     = [(Info, "Audnexus.us   url: %r");
        (Error, "Failed to get json result for query")]
  /\ self_log (run table clean self (Body (Raise ValueError)))
     = [(Info, "Audnexus.us   url: %r");
        (Exception, "get_details failed for url: %r")].
Proof. repeat split. Qed.

Lemma cover_url_cached_for_identifier_witness :
  exists mi self',
    parse_details [] (fun mi => mi) (__init__ "" [] [] 0 (mk_Plugin [] []))
      (JObj [("asin", JStr "B002V19RO6"); ("title", JStr "1984");
             ("authors", JArr [JObj [("name", JStr "George Orwell")]]);
             ("narrators", JArr [JObj [("name", JStr "Simon Prebble")]]);
             ("summary", JStr "A novel.");
             ("image", JStr "https://m.media-amazon.com/images/I/1984.jpg")])
    = (Ok (), self')
    /\ self_result_queue self' = [] ++ [mi]
    /\ Audible.get_cached_cover_url (self_plugin self') {[ "audible" := "B002V19RO6" ]}
       = Some (JStr "https://m.media-amazon.com/images/I/1984.jpg").
Proof.
  apply (cover_url_cached_for_identifier [] (fun mi => mi)
           (__init__ "" [] [] 0 (mk_Plugin [] [])) _ "B002V19RO6"
           (JStr "https://m.media-amazon.com/images/I/1984.jpg")).
  - repeat split.
    + exists (JStr "B002V19RO6"). split; reflexivity.
    + exists (JStr "1984"). split; reflexivity.
    + exists (JArr [JStr "George Orwell"]). split; reflexivity.
  - exists (JArr [JStr "Simon Prebble"]), (JStr "A novel."). eexists.
    repeat split; reflexivity.
  - reflexivity.
  - reflexivity.
  - reflexivity.
Defined.

Lemma download_cover_from_cache_witness :
  let identify_body :=
    fun (p : Plugin) (log : list log_record) (_ : bool) (_ : option string)
        (_ : option (list string)) (_ : gmap string string) =>
      (Ok (), (p, log, @nil Metadata)) in
  let st := Audible.mk_State
              (mk_Plugin [(JStr "B002V19RO6", JStr "https://example.org/c.jpg")] [])
              [] [] in
  let outcome :=
    Audible.download_cover identify_body (fun _ _ _ results => results)
      (fun _ => Ok "JPEG") st false None None {[ "audible" := "B002V19RO6" ]} in
  fst outcome = Ok ()
  /\ Audible.st_plugin (snd outcome) = Audible.st_plugin st
  /\ Audible.st_result_queue (snd outcome) = [] ++ ["JPEG"].
Proof.
  intros identify_body st outcome.
  apply (download_cover_from_cache identify_body (fun _ _ _ results => results)
           (fun _ => Ok "JPEG") st false None None {[ "audible" := "B002V19RO6" ]}
           (JStr "https://example.org/c.jpg")).
  reflexivity.
Defined.

Lemma download_cover_after_parse_details_witness :
  let root :=
    JObj [("asin", JStr "B002V19RO6"); ("title", JStr "1984");
          ("authors", JArr [JObj [("name", JStr "George Orwell")]]);
          ("narrators", JArr [JObj [("name", JStr "Simon Prebble")]]);
          ("summary", JStr "A novel.");
          ("image", JStr "https://m.media-amazon.com/images/I/1984.jpg")] in
  let identify_body :=
    fun (p : Plugin) (log : list log_record) (_ : bool) (_ : option string)
        (_ : option (list string)) (_ : gmap string string) =>
      (Ok (), (p, log, @nil Metadata)) in
  let self' :=
    snd (parse_details [] (fun mi => mi) (__init__ "" [] [] 0 (mk_Plugin [] [])) root) in
  let outcome :=
    Audible.download_cover identify_body (fun _ _ _ results => results)
      (fun _ => Ok "JPEG") (Audible.mk_State (self_plugin self') [] []) false
      (Some "1984") None {[ "audible" := "B002V19RO6" ]} in
  fst outcome = Ok ()
  /\ Audible.st_result_queue (snd outcome) = [] ++ ["JPEG"].
Proof.
  intros root identify_body self' outcome.
  apply (download_cover_after_parse_details [] (fun mi => mi) identify_body
           (fun _ _ _ results => results) (fun _ => Ok "JPEG")
           (__init__ "" [] [] 0 (mk_Plugin [] [])) root "B002V19RO6"
           (JStr "https://m.media-amazon.com/images/I/1984.jpg") "JPEG" [] []
           (Some "1984") None).
  - repeat split.
    + exists (JStr "B002V19RO6"). split; reflexivity.
    + exists (JStr "1984"). split; reflexivity.
    + exists (JArr [JStr "George Orwell"]). split; reflexivity.
  - exists (JArr [JStr "Simon Prebble"]), (JStr "A novel."). eexists.
    repeat split; reflexivity.
  - reflexivity.
  - reflexivity.
  - reflexivity.
  - reflexivity.
Defined.

Lemma optional_failures_are_logged_witness :
  (Exception, "Error parsing ratings for url: %r")
  ∈ self_log
      (snd (parse_details [] (fun mi => mi) (__init__ "" [] [] 0 (mk_Plugin [] []))
              (JObj [("asin", JStr "B002V19RO6"); ("title", JStr "1984");
                     ("authors", JArr [JObj [("name", JStr "George Orwell")]]);
                     ("narrators", JArr [JObj [("name", JStr "Simon Prebble")]]);
                     ("summary", JStr "A novel.");
                     ("rating", JStr "four stars")]))).
Proof.
  destruct (optional_failures_are_logged [] (fun mi => mi)
              (__init__ "" [] [] 0 (mk_Plugin [] []))
              (JObj [("asin", JStr "B002V19RO6"); ("title", JStr "1984");
                     ("authors", JArr [JObj [("name", JStr "George Orwell")]]);
                     ("narrators", JArr [JObj [("name", JStr "Simon Prebble")]]);
                     ("summary", JStr "A novel.");
                     ("rating", JStr "four stars")]))
    as (_ & _ & _ & Hrating & _).
  - repeat split.
    + exists (JStr "B002V19RO6"). split; reflexivity.
    + exists (JStr "1984"). split; reflexivity.
    + exists (JArr [JStr "George Orwell"]). split; reflexivity.
  - apply (Hrating ValueError). reflexivity.
Defined.

End AsciiText.
